(** * The offline-caching service worker of the battery dashboard

    A shallow embedding of [public/sw.js]: the three listeners
    ([install], [activate], [fetch]), the cache storage they work on and
    the order in which their synchronous statements and their promise
    reactions run. *)

From Stdlib Require Import Ascii String List ZArith NArith QArith Bool Lia.
From Stdlib Require Import DecimalString DecimalN.
Import ListNotations.
Close Scope Q_scope.
Open Scope string_scope.
Open Scope list_scope.

(** ** Requests, responses and URLs *)

(** The parts of a parsed [URL] the worker looks at ([url.origin],
    [url.hostname]) and the ones that make up the cache key. *)
Record URL := mkURL {
  protocol : string;   (* "https:" *)
  hostname : string;
  port : string;       (* "" for the default port *)
  pathname : string;
  search : string      (* query string, with its "?" *)
}.

Definition host (u : URL) : string :=
  if (port u =? "") then hostname u else (hostname u ++ ":" ++ port u)%string.

Definition origin (u : URL) : string := (protocol u ++ "//" ++ host u)%string.

(** The listeners never look at request headers; a request is its method
    and its URL, which is also what a cache entry is keyed by. *)
Record Request := mkRequest {
  method : string;
  url : URL
}.

Record Response := mkResponse {
  status : Z;
  headers : list (string * string);
  body : string
}.

(** [response.ok] *)
Definition ok (r : Response) : bool :=
  (200 <=? status r)%Z && (status r <=? 299)%Z.

(** [response.clone()]: a second response with the same status, headers
    and body. *)
Definition clone (r : Response) : Response :=
  {| status := status r; headers := headers r; body := body r |}.

(** *** What a cache refuses to store

    [cache.put] and [cache.addAll] reject a response with status 206 and
    a response whose [Vary] header names [*]; nothing is stored then.
    Header names compare without regard to case; a header value is a
    comma-separated list of fields with optional blanks around each. *)

Definition lower_ascii (c : ascii) : ascii :=
  let n := nat_of_ascii c in
  if (65 <=? n)%nat && (n <=? 90)%nat then ascii_of_nat (n + 32) else c.

Fixpoint lower (s : string) : string :=
  match s with
  | EmptyString => EmptyString
  | String c s' => String (lower_ascii c) (lower s')
  end.

Definition is_blank (c : ascii) : bool :=
  (c =? " ")%char || (c =? "009")%char.

Fixpoint trim_left (s : string) : string :=
  match s with
  | EmptyString => EmptyString
  | String c s' => if is_blank c then trim_left s' else s
  end.

Fixpoint trim_right (s : string) : string :=
  match s with
  | EmptyString => EmptyString
  | String c s' =>
      match trim_right s' with
      | EmptyString => if is_blank c then EmptyString else String c EmptyString
      | t => String c t
      end
  end.

Definition trim (s : string) : string := trim_right (trim_left s).

Fixpoint split_commas (s : string) : list string :=
  match s with
  | EmptyString => [EmptyString]
  | String c s' =>
      if (c =? ",")%char then EmptyString :: split_commas s'
      else match split_commas s' with
           | f :: fs => String c f :: fs
           | [] => [String c EmptyString]
           end
  end.

(** The fields of the response's [Vary] headers. *)
Definition vary_fields (r : Response) : list string :=
  flat_map (fun h => if (lower (fst h) =? "vary")
                     then map trim (split_commas (snd h))
                     else [])
           (headers r).

Definition vary_star (r : Response) : bool :=
  existsb (fun f => f =? "*") (vary_fields r).

(** Whether [cache.put(request, r)] stores [r].  The worker puts only
    what [fetch] answered for a GET, so the request is an http(s) GET
    and the response is fresh: the response alone decides. *)
Definition put_accepts (r : Response) : bool :=
  negb (status r =? 206)%Z && negb (vary_star r).

Definition URL_eqb (a b : URL) : bool :=
  (protocol a =? protocol b) && (hostname a =? hostname b) &&
  (port a =? port b) && (pathname a =? pathname b) && (search a =? search b).

Definition Request_eqb (a b : Request) : bool :=
  (method a =? method b) && URL_eqb (url a) (url b).

(** ** Cache storage

    A generation is a named cache: a key-response store.  The storage
    keeps its generations in creation order, which is the order
    [caches.match] searches them in. *)

Definition Cache := list (Request * Response).
Definition CacheStorage := list (string * Cache).

(** [cache.match(key)] on one generation. *)
Fixpoint cache_match (c : Cache) (key : Request) : option Response :=
  match c with
  | [] => None
  | (k, v) :: c' => if Request_eqb key k then Some v else cache_match c' key
  end.

(** [cache.put(key, v)]: a later write for the same key replaces the
    entry. *)
Fixpoint cache_put (c : Cache) (key : Request) (v : Response) : Cache :=
  match c with
  | [] => [(key, v)]
  | (k, v') :: c' =>
      if Request_eqb key k then (k, v) :: c' else (k, v') :: cache_put c' key v
  end.

(** [caches.match(key)]: called on the storage, not on one cache; it
    answers with the first hit over all generations. *)
Fixpoint caches_match (cs : CacheStorage) (key : Request) : option Response :=
  match cs with
  | [] => None
  | (_, c) :: cs' =>
      match cache_match c key with
      | Some v => Some v
      | None => caches_match cs' key
      end
  end.

(** [caches.keys()] *)
Definition caches_keys (cs : CacheStorage) : list string := map fst cs.

(** [caches.has(name)] *)
Definition caches_has (cs : CacheStorage) (name : string) : bool :=
  existsb (String.eqb name) (caches_keys cs).

(** The generation called [name], if the storage has one. *)
Fixpoint generation (cs : CacheStorage) (name : string) : option Cache :=
  match cs with
  | [] => None
  | (n, c) :: cs' => if (name =? n) then Some c else generation cs' name
  end.

(** [caches.open(name)]: creates the generation when it is absent. *)
Definition caches_open (cs : CacheStorage) (name : string) : CacheStorage :=
  if caches_has cs name then cs else cs ++ [(name, [])].

(** [caches.delete(name)] *)
Definition caches_delete (cs : CacheStorage) (name : string) : CacheStorage :=
  filter (fun g => negb (fst g =? name)) cs.

(** The write of a [put] that the cache accepts, on the cache object
    that [caches.open(name)] resolved to. *)
Fixpoint storage_put (cs : CacheStorage) (name : string)
    (key : Request) (v : Response) : CacheStorage :=
  match cs with
  | [] => []
  | (n, c) :: cs' =>
      if (name =? n) then (n, cache_put c key v) :: cs'
      else (n, c) :: storage_put cs' name key v
  end.

(** ** Constants of the worker *)

Definition CACHE_VERSION : string := "garden-battery-v1".

Definition APP_SHELL : list string :=
  ["/"; "/history"; "/manifest.webmanifest"; "/favicon.ico"; "/assets/sun.gif"].

(** ** Events, pending work and the worker's world *)

(** What a listener and its promise reactions do, in the order it
    happens. *)
Inductive Event :=
| EvWaitUntil                                   (* event.waitUntil(p) *)
| EvRespondWith                                 (* event.respondWith(p) *)
| EvSkipWaiting                                 (* self.skipWaiting() *)
| EvClaim                                       (* self.clients.claim() *)
| EvOpen (name : string)                        (* caches.open resolved *)
| EvKeys (names : list string)                  (* caches.keys resolved *)
| EvDelete (name : string)                      (* caches.delete resolved *)
| EvLookup (key : Request) (found : option Response)   (* caches.match resolved *)
| EvPut (name : string) (key : Request) (v : Response) (* an entry written *)
| EvNetwork (req : Request) (result : option Response) (* fetch settled *)
| EvSettled (fulfilled : bool)                  (* the waitUntil promise settled *)
| EvReply (v : option Response).                (* the respondWith promise fulfilled *)

(** The callbacks of the source, one constructor per [.then]/[.catch]. *)
Inductive OpenK :=
| ThenAddAll (paths : list string)              (* cache => cache.addAll(paths) *)
| ThenPut (req : Request) (v : Response).       (* cache => cache.put(req, v) *)

Inductive MatchK :=
| ThenServeOrFetch (req : Request)              (* cached => cached or fetch(req)... *)
| ThenReply.                                    (* the lookup's result is the reply *)

Inductive FetchK :=
| SameOrigin                                    (* .catch(() => caches.match("/")) *)
| Remote.                                       (* .catch(() => caches.match(request)) *)

(** An operation that was started and whose promise has not settled
    yet, with the reaction attached to it. *)
Inductive Job :=
| JOpen (name : string) (k : OpenK)
| JAddAll (name : string) (paths : list string)
| JPut (name : string) (req : Request) (v : Response)
| JKeys
| JDelete (name : string)
| JAll                                          (* Promise.all over the deletions *)
| JMatch (key : Request) (k : MatchK)
| JFetch (req : Request) (k : FetchK).

(** What became of the fetch event. *)
Inductive Reply :=
| NotIntercepted                                (* respondWith was not called *)
| Pending
| Replied (v : option Response).                (* [None] is JS [undefined] *)

Record World := mkWorld {
  caches : CacheStorage;
  log : list Event;
  queue : list Job;
  reply : Reply
}.

Definition init (cs : CacheStorage) : World :=
  {| caches := cs; log := []; queue := []; reply := NotIntercepted |}.

(** ** A state monad for listener and callback bodies *)

Definition Sync (A : Type) : Type := World -> A * World.

Definition ret {A} (a : A) : Sync A := fun w => (a, w).

Definition bind {A B} (c : Sync A) (k : A -> Sync B) : Sync B :=
  fun w => let (a, w') := c w in k a w'.

Notation "x <- c ;; k" := (bind c (fun x => k))
  (at level 61, c at next level, right associativity).
Notation "c ;; k" := (bind c (fun _ => k))
  (at level 61, right associativity).

Definition exec {A} (c : Sync A) (w : World) : World := snd (c w).

Definition emit (e : Event) : Sync unit := fun w =>
  (tt, {| caches := caches w; log := log w ++ [e];
          queue := queue w; reply := reply w |}).

Definition start (j : Job) : Sync unit := fun w =>
  (tt, {| caches := caches w; log := log w;
          queue := queue w ++ [j]; reply := reply w |}).

Definition start_all (js : list Job) : Sync unit := fun w =>
  (tt, {| caches := caches w; log := log w;
          queue := queue w ++ js; reply := reply w |}).

Definition get_caches : Sync CacheStorage := fun w => (caches w, w).

Definition set_caches (cs : CacheStorage) : Sync unit := fun w =>
  (tt, {| caches := cs; log := log w; queue := queue w; reply := reply w |}).

Definition set_reply (r : Reply) : Sync unit := fun w =>
  (tt, {| caches := caches w; log := log w; queue := queue w; reply := r |}).

Definition set_queue (q : list Job) (w : World) : World :=
  {| caches := caches w; log := log w; queue := q; reply := reply w |}.

(** [event.waitUntil(p)] and [event.respondWith(p)]: the argument is
    evaluated first, which starts the operation [p] hangs on. *)
Definition event_waitUntil (p : Job) : Sync unit :=
  start p ;; emit EvWaitUntil.

Definition event_respondWith (p : Job) : Sync unit :=
  start p ;; set_reply Pending ;; emit EvRespondWith.

Definition self_skipWaiting : Sync unit := emit EvSkipWaiting.
Definition clients_claim : Sync unit := emit EvClaim.

(** The promise handed to [respondWith] fulfils with [v]. *)
Definition fulfil (v : option Response) : Sync unit :=
  set_reply (Replied v) ;; emit (EvReply v).

Fixpoint emit_all (es : list Event) : Sync unit :=
  match es with
  | [] => ret tt
  | e :: es' => emit e ;; emit_all es'
  end.

(** ** The worker *)

Section Worker.

(** [self.location], the URL the worker script was served from. *)
Variable self_location : URL.

(** What [fetch(request)] settles to: [Some response] when a response
    arrives, whatever its status, and [None] when the promise rejects. *)
Variable network : Request -> option Response.

(** [new Request(path)] for a path of the application, as
    [caches.match("/")] and [cache.addAll] build it. *)
Definition resolve (path : string) : Request :=
  {| method := "GET";
     url := {| protocol := protocol self_location;
               hostname := hostname self_location;
               port := port self_location;
               pathname := path;
               search := "" |} |}.

Definition root_request : Request := resolve "/".

(** [cache.addAll(paths)] fetches every path and writes the batch only
    when every response arrived, is [ok] and is one a cache stores;
    otherwise it rejects and writes nothing. *)
Fixpoint batch (fetched : list (Request * option Response))
    : option (list (Request * Response)) :=
  match fetched with
  | [] => Some []
  | (req, Some v) :: rest =>
      if ok v && put_accepts v then
        match batch rest with
        | Some entries => Some ((req, v) :: entries)
        | None => None
        end
      else None
  | (_, None) :: _ => None
  end.

Definition put_entries (name : string) (entries : list (Request * Response))
    (cs : CacheStorage) : CacheStorage :=
  fold_left (fun cs e => storage_put cs name (fst e) (snd e)) entries cs.

Definition cache_addAll (name : string) (paths : list string) : Sync unit :=
  let fetched := map (fun req => (req, network req)) (map resolve paths) in
  emit_all (map (fun f => EvNetwork (fst f) (snd f)) fetched) ;;
  match batch fetched with
  | Some entries =>
      cs <- get_caches ;;
      set_caches (put_entries name entries cs) ;;
      emit_all (map (fun e => EvPut name (fst e) (snd e)) entries) ;;
      emit (EvSettled true)
  | None => emit (EvSettled false)
  end.

(** [(keys) => Promise.all(keys.filter(...).map((key) => caches.delete(key)))] *)
Definition delete_stale (keys : list string) : Sync unit :=
  start_all
    (map JDelete (filter (fun key => negb (key =? CACHE_VERSION)) keys)
     ++ [JAll]).

(** [(response) => { ...clone, open, put...; return response; }], the
    same in both branches of the fetch listener. *)
Definition store_and_return (request : Request) (response : Response)
    : Sync unit :=
  let responseClone := clone response in
  start (JOpen CACHE_VERSION (ThenPut request responseClone)) ;;
  fulfil (Some response).

(** [(cached) => { if (cached) return cached; return fetch(request)... }] *)
Definition serve_or_fetch (request : Request) (cached : option Response)
    : Sync unit :=
  match cached with
  | Some hit => fulfil (Some hit)
  | None => start (JFetch request SameOrigin)
  end.

(** A pending operation settles and its reaction runs. *)
Definition run_job (j : Job) : Sync unit :=
  match j with
  | JOpen name k =>
      cs <- get_caches ;;
      set_caches (caches_open cs name) ;;
      emit (EvOpen name) ;;
      match k with
      | ThenAddAll paths => start (JAddAll name paths)
      | ThenPut req v => start (JPut name req v)
      end
  | JAddAll name paths => cache_addAll name paths
  | JPut name req v =>
      if put_accepts v then
        cs <- get_caches ;;
        set_caches (storage_put cs name req v) ;;
        emit (EvPut name req v)
      else ret tt
  | JKeys =>
      cs <- get_caches ;;
      emit (EvKeys (caches_keys cs)) ;;
      delete_stale (caches_keys cs)
  | JDelete name =>
      cs <- get_caches ;;
      set_caches (caches_delete cs name) ;;
      emit (EvDelete name)
  | JAll => emit (EvSettled true)
  | JMatch key k =>
      cs <- get_caches ;;
      emit (EvLookup key (caches_match cs key)) ;;
      match k with
      | ThenServeOrFetch req => serve_or_fetch req (caches_match cs key)
      | ThenReply => fulfil (caches_match cs key)
      end
  | JFetch req k =>
      emit (EvNetwork req (network req)) ;;
      match network req with
      | Some response => store_and_return req response
      | None =>
          match k with
          | SameOrigin => start (JMatch root_request ThenReply)
          | Remote => start (JMatch req ThenReply)
          end
      end
  end.

(** The pending operations settle in the order they were started,
    each one after the code that started it has run to its end. *)
Fixpoint drain (fuel : nat) (w : World) : World :=
  match fuel with
  | O => w
  | S fuel' =>
      match queue w with
      | [] => w
      | j :: q => drain fuel' (exec (run_job j) (set_queue q w))
      end
  end.

(** *** The three listeners *)

Definition install_listener : Sync unit :=
  event_waitUntil (JOpen CACHE_VERSION (ThenAddAll APP_SHELL)) ;;
  self_skipWaiting.

Definition activate_listener : Sync unit :=
  event_waitUntil JKeys ;;
  clients_claim.

Definition fetch_listener (request : Request) : Sync unit :=
  let url := url request in
  if negb (method request =? "GET") then ret tt
  else if (origin url =? origin self_location) then
    event_respondWith (JMatch request (ThenServeOrFetch request))
  else if (hostname url =? "batteryapi.liese.space")
          || (hostname url =? "thingspeak.com") then
    event_respondWith (JFetch request Remote)
  else ret tt.

(** An event is dispatched on a storage [cs]: the listener runs, then
    everything it started. *)
Definition handle_install (cs : CacheStorage) : World :=
  drain 4 (exec install_listener (init cs)).

Definition handle_activate (cs : CacheStorage) : World :=
  drain (2 + length cs) (exec activate_listener (init cs)).

Definition handle_fetch (request : Request) (cs : CacheStorage) : World :=
  drain 4 (exec (fetch_listener request) (init cs)).

(** What the page that issued [request] gets: the reply of the worker,
    where a promise fulfilled with [undefined] is a network error; the
    browser's own fetch when the worker did not call [respondWith]. *)
Inductive PageResult :=
| Served (v : Response)
| NetworkError
| Unsettled.

Definition page_result (request : Request) (w : World) : PageResult :=
  match reply w with
  | NotIntercepted =>
      match network request with
      | Some v => Served v
      | None => NetworkError
      end
  | Pending => Unsettled
  | Replied (Some v) => Served v
  | Replied None => NetworkError
  end.

(** The manifest requests with what the network answers to each. *)
Definition shell_fetches : list (Request * option Response) :=
  map (fun req => (req, network req)) (map resolve APP_SHELL).

Definition install_prefix : list Event :=
  [EvWaitUntil; EvSkipWaiting; EvOpen CACHE_VERSION]
  ++ map (fun f => EvNetwork (fst f) (snd f)) shell_fetches.

(** What [cache.put(request, v)] adds to the log. *)
Definition put_log (request : Request) (v : Response) : list Event :=
  if put_accepts v then [EvPut CACHE_VERSION request v] else [].

(** The six ways a fetch event can go, with the log of each. *)
Inductive FetchRun (request : Request) (cs : CacheStorage)
    : list Event -> Prop :=
| RunIgnored :
    FetchRun request cs []
| RunHit stored :
    caches_match cs request = Some stored ->
    FetchRun request cs [EvRespondWith; EvLookup request (Some stored);
              EvReply (Some stored)]
| RunRefill response :
    caches_match cs request = None ->
    network request = Some response ->
    FetchRun request cs ([EvRespondWith; EvLookup request None;
               EvNetwork request (Some response); EvReply (Some response);
               EvOpen CACHE_VERSION]
              ++ put_log request (clone response))
| RunRootFallback :
    caches_match cs request = None ->
    network request = None ->
    FetchRun request cs [EvRespondWith; EvLookup request None;
              EvNetwork request None;
              EvLookup root_request (caches_match cs root_request);
              EvReply (caches_match cs root_request)]
| RunRemote response :
    network request = Some response ->
    FetchRun request cs ([EvRespondWith; EvNetwork request (Some response);
               EvReply (Some response); EvOpen CACHE_VERSION]
              ++ put_log request (clone response))
| RunRemoteFallback :
    network request = None ->
    FetchRun request cs [EvRespondWith; EvNetwork request None;
              EvLookup request (caches_match cs request);
              EvReply (caches_match cs request)].

End Worker.

(** ** Reading a log *)

Definition is_network (e : Event) : bool :=
  match e with EvNetwork _ _ => true | _ => false end.

Definition is_write (e : Event) : bool :=
  match e with EvPut _ _ _ => true | _ => false end.

Definition is_lookup (e : Event) : bool :=
  match e with EvLookup _ _ => true | _ => false end.

Definition is_delete (e : Event) : bool :=
  match e with EvDelete _ => true | _ => false end.

(** Any access to the cache storage: opening, enumerating, deleting,
    reading or writing. *)
Definition is_cache_access (e : Event) : bool :=
  match e with
  | EvOpen _ | EvKeys _ | EvDelete _ | EvLookup _ _ | EvPut _ _ _ => true
  | _ => false
  end.

Definition network_calls (l : list Event) : list Event := filter is_network l.
Definition cache_writes (l : list Event) : list Event := filter is_write l.
Definition cache_accesses (l : list Event) : list Event := filter is_cache_access l.

(** The keys looked up, in order. *)
Fixpoint lookups (l : list Event) : list Request :=
  match l with
  | [] => []
  | EvLookup key _ :: l' => key :: lookups l'
  | _ :: l' => lookups l'
  end.


(** The hostname test of the fetch listener. *)
Definition is_allow_listed (u : URL) : bool :=
  (hostname u =? "batteryapi.liese.space") || (hostname u =? "thingspeak.com").

(** The identifiers the activate listener deletes. *)
Definition stale (cs : CacheStorage) : list string :=
  filter (fun key => negb (key =? CACHE_VERSION)) (caches_keys cs).

(** A lookup that searches the current generation only. *)
Definition current_match (cs : CacheStorage) (key : Request) : option Response :=
  match generation cs CACHE_VERSION with
  | Some c => cache_match c key
  | None => None
  end.

(** [only_after signal done l]: no [signal] occurs in [l] before the
    first [done]. *)
Fixpoint only_after (signal done : Event -> bool) (l : list Event) : bool :=
  match l with
  | [] => true
  | e :: l' =>
      if signal e then false
      else if done e then true
      else only_after signal done l'
  end.

Definition is_skip_waiting (e : Event) : bool :=
  match e with EvSkipWaiting => true | _ => false end.

Definition is_claim (e : Event) : bool :=
  match e with EvClaim => true | _ => false end.

Definition is_settled (e : Event) : bool :=
  match e with EvSettled _ => true | _ => false end.

(** ** Sample data *)

Module Sample.

Definition app : URL := mkURL "https:" "battery.example" "" "/sw.js" "".

Definition get (host path : string) : Request :=
  mkRequest "GET" (mkURL "https:" host "" path "").

Definition page (path : string) : Request := get "battery.example" path.
Definition stats : Request := get "batteryapi.liese.space" "/stats".
Definition elsewhere : Request := get "cdn.example" "/lib.js".
Definition post_stats : Request :=
  mkRequest "POST" (mkURL "https:" "batteryapi.liese.space" "" "/stats" "").

Definition html (text : string) : Response :=
  mkResponse 200 [("content-type", "text/html")] text.
Definition json (text : string) : Response :=
  mkResponse 200 [("content-type", "application/json")] text.
Definition not_found : Response :=
  mkResponse 404 [("content-type", "text/plain")] "Not Found".
Definition partial : Response :=
  mkResponse 206 [("content-range", "bytes 0-9/100")] "0123456789".
Definition varying : Response :=
  mkResponse 200 [("Vary", "*")] "any".

Definition offline : Request -> option Response := fun _ => None.
Definition serving (v : Response) : Request -> option Response :=
  fun _ => Some v.

End Sample.

(** ** The dashboard page

    The page side of the repository: the live view that polls the stats
    endpoint through the worker, and the history view that builds the
    chart URLs. *)

(** A JS number: a finite double is a rational; the other values are
    the infinities and NaN.  Only comparisons are modelled. *)
Inductive number :=
| Finite (q : Q)
| PosInfinity
| NegInfinity
| NaN.

(** [x <= k], [x < 0] and [x > 0] for a finite constant [k]. *)
Definition num_le (x : number) (k : Q) : bool :=
  match x with
  | Finite q => Qle_bool q k
  | NegInfinity => true
  | PosInfinity | NaN => false
  end.

Definition num_lt0 (x : number) : bool :=
  match x with
  | Finite q => negb (Qle_bool 0 q)
  | NegInfinity => true
  | PosInfinity | NaN => false
  end.

Definition num_gt0 (x : number) : bool :=
  match x with
  | Finite q => negb (Qle_bool q 0)
  | PosInfinity => true
  | NegInfinity | NaN => false
  end.

(** [type BatteryStats = { watts?: number; soc?: number }] *)
Record BatteryStats := mkStats {
  watts : option number;
  soc : option number
}.

Definition getSocColor (soc : number) : string :=
  if num_le soc 10 then "#ef4444"
  else if num_le soc 25 then "#f97316"
  else if num_le soc 45 then "#eab308"
  else if num_le soc 70 then "#84cc16"
  else "#22c55e".

Definition getSocGlow (soc : number) : string :=
  if num_le soc 10 then "rgba(239,68,68,0.35)"
  else if num_le soc 25 then "rgba(249,115,22,0.3)"
  else if num_le soc 45 then "rgba(234,179,8,0.25)"
  else if num_le soc 70 then "rgba(132,204,22,0.25)"
  else "rgba(34,197,94,0.3)".

(** The derived values of [LiveBattery]; [stats] is [null] until the
    first reading arrives. *)
Definition soc_of (stats : option BatteryStats) : number :=
  match stats with
  | Some s => match soc s with Some n => n | None => Finite 0 end
  | None => Finite 0
  end.

Definition watts_of (stats : option BatteryStats) : option number :=
  match stats with
  | Some s => watts s
  | None => None
  end.

Definition isCharging (stats : option BatteryStats) : bool :=
  match watts_of stats with Some n => num_lt0 n | None => false end.

Definition isDischarging (stats : option BatteryStats) : bool :=
  match watts_of stats with Some n => num_gt0 n | None => false end.

Definition fillColor (stats : option BatteryStats) : string :=
  getSocColor (soc_of stats).

Definition glowColor (stats : option BatteryStats) : string :=
  getSocGlow (soc_of stats).

Definition statusText (stats : option BatteryStats) : string :=
  if isCharging stats then "CHARGING"
  else if isDischarging stats then "DISCHARGING"
  else match watts_of stats with Some _ => "IDLE" | None => "" end.

Definition statusColor (stats : option BatteryStats) : string :=
  if isCharging stats then "#4ade80"
  else if isDischarging stats then "#f87171"
  else "#64748b".

Definition particleColor (stats : option BatteryStats) : string :=
  if isCharging stats then "#4ade80" else "#f87171".

(** *** Polling *)

(** [fetch("https://batteryapi.liese.space/stats", { cache: "no-store" })] *)
Definition stats_request : Request :=
  {| method := "GET";
     url := {| protocol := "https:"; hostname := "batteryapi.liese.space";
               port := ""; pathname := "/stats"; search := "" |} |}.

Inductive PageEffect :=
| SetStats (data : BatteryStats)       (* setStats(data) *)
| SetTimeout (ms : Z).                 (* tid = setTimeout(refresh, ms) *)

(** One run of [refresh].  [random] is what [createRandomStats()] draws,
    [fetched] what the fetch settles to, [json] what [response.json()]
    parses the body to ([None] when it rejects), and [cancelled] the flag
    as the run finds it when it resumes.  A rejected fetch or [json()]
    lands in the empty [catch]; [finally] runs after either. *)
Definition refresh (debugRandomMode : bool) (random : BatteryStats)
    (fetched : PageResult) (json : Response -> option BatteryStats)
    (cancelled : bool) : list PageEffect :=
  let finally := if negb cancelled then [SetTimeout 5000] else [] in
  if debugRandomMode then
    (if negb cancelled then [SetStats random] else []) ++ finally
  else
    match fetched with
    | Served response =>
        match json response with
        | Some data => (if negb cancelled then [SetStats data] else []) ++ finally
        | None => finally
        end
    | NetworkError => finally
    | Unsettled => []
    end.

(** A poll of the live view on a page the worker controls. *)
Definition poll (self_location : URL) (network : Request -> option Response)
    (cs : CacheStorage) (json : Response -> option BatteryStats)
    (random : BatteryStats) (cancelled : bool) : list PageEffect :=
  refresh false random
    (page_result network stats_request
       (handle_fetch self_location network stats_request cs))
    json cancelled.

(** *** The earlier live view

    The same component before its redesign: what it renders above the
    battery, and the colour of the watt label. *)

(** [x === 0] and JS truthiness of a number. *)
Definition num_eq0 (x : number) : bool :=
  match x with
  | Finite q => Qeq_bool q 0
  | _ => false
  end.

Definition truthy (x : number) : bool :=
  match x with
  | Finite q => negb (Qeq_bool q 0)
  | PosInfinity | NegInfinity => true
  | NaN => false
  end.

(** [typeof watts === "number" && watts > 0 ? <AnimatedArrow /> : null] *)
Definition showsArrow (stats : option BatteryStats) : bool :=
  match watts_of stats with Some n => num_gt0 n | None => false end.

(** [(typeof watts !== "number" || watts === 0) && <div ... />] *)
Definition showsSpacer (stats : option BatteryStats) : bool :=
  match watts_of stats with Some n => num_eq0 n | None => true end.

(** [typeof watts === "number" && watts < 0 ? (...sun...) : null] *)
Definition showsSun (stats : option BatteryStats) : bool :=
  match watts_of stats with Some n => num_lt0 n | None => false end.

Definition wattColor (stats : option BatteryStats) : string :=
  match watts_of stats with
  | None => "var(--label-color)"
  | Some n =>
      if negb (truthy n) then "var(--label-color)"
      else if num_gt0 n then "var(--watt-positive-color)"
      else "var(--watt-negative-color)"
  end.

(** *** The history view *)

(** [hours] is the value of the range input, an integer from 4 to 168
    in steps of 4.  On such values [hours * 20] is exact and the
    template literal prints it in decimal; the definitions below are
    meant for that range only (a double rounds from 2^53 on). *)
Definition decimal (n : N) : string := NilEmpty.string_of_uint (N.to_uint n).

Definition backgroundColor (isDarkMode : bool) : string :=
  if isDarkMode then "%23111111" else "%23ffffff".

Definition url1 (hours : N) (isDarkMode : bool) : string :=
  let chartColor := if isDarkMode then "%237ba2ff" else "%232020d6" in
  ("https://thingspeak.com/channels/1465860/charts/1?bgcolor="
   ++ backgroundColor isDarkMode ++ "&color=" ++ chartColor
   ++ "&dynamic=true&results=" ++ decimal (hours * 20)
   ++ "&title=State+of+Charge+%5B%25%5D&type=line&yaxis=SoC&width=auto&height=auto")%string.

Definition url2 (hours : N) (isDarkMode : bool) : string :=
  let chartColor := if isDarkMode then "%23ff7a7a" else "%23d62020" in
  ("https://thingspeak.com/channels/1465877/charts/1?bgcolor="
   ++ backgroundColor isDarkMode ++ "&color=" ++ chartColor
   ++ "&dynamic=true&results=" ++ decimal (hours * 20)
   ++ "&title=P+%5BW%5D&type=line&yaxis=Watt&width=auto&height=auto")%string.

(** ** Facts about keys and the storage *)

Lemma URL_eqb_refl (u : URL) : URL_eqb u u = true.
Proof. unfold URL_eqb. now rewrite !String.eqb_refl. Qed.

Lemma Request_eqb_refl (r : Request) : Request_eqb r r = true.
Proof. unfold Request_eqb. now rewrite String.eqb_refl, URL_eqb_refl. Qed.

Lemma Request_eqb_eq (a b : Request) : Request_eqb a b = true <-> a = b.
Proof.
  split; [| intros ->; apply Request_eqb_refl].
  destruct a as [ma [pa ha oa na sa]], b as [mb [pb hb ob nb sb]].
  unfold Request_eqb, URL_eqb; simpl.
  rewrite !andb_true_iff, !String.eqb_eq.
  intros [-> [[[[-> ->] ->] ->] ->]]. reflexivity.
Qed.

Lemma clone_eq (r : Response) : clone r = r.
Proof. now destruct r. Qed.

Lemma put_accepts_clone (r : Response) : put_accepts (clone r) = put_accepts r.
Proof. now rewrite clone_eq. Qed.

Lemma cache_put_match (c : Cache) (key : Request) (v : Response) :
  cache_match (cache_put c key v) key = Some v.
Proof.
  induction c as [| [k v'] c IH]; simpl.
  - now rewrite Request_eqb_refl.
  - destruct (Request_eqb key k) eqn:E; simpl; now rewrite E.
Qed.

Lemma caches_has_generation (cs : CacheStorage) (name : string) :
  caches_has cs name = true <-> exists c, generation cs name = Some c.
Proof.
  unfold caches_has, caches_keys.
  induction cs as [| [n c] cs IH]; simpl.
  - split; [discriminate | intros [c H]; discriminate].
  - destruct (name =? n); simpl; [split; eauto | exact IH].
Qed.

Lemma generation_app_new (cs : CacheStorage) (name : string) :
  caches_has cs name = false ->
  generation (cs ++ [(name, [])]) name = Some [].
Proof.
  unfold caches_has, caches_keys.
  induction cs as [| [n c] cs IH]; simpl.
  - now rewrite String.eqb_refl.
  - destruct (name =? n); simpl; [discriminate | exact IH].
Qed.

Lemma caches_open_generation (cs : CacheStorage) (name : string) :
  exists c, generation (caches_open cs name) name = Some c.
Proof.
  unfold caches_open. destruct (caches_has cs name) eqn:E.
  - now apply caches_has_generation.
  - exists []. now apply generation_app_new.
Qed.

Lemma storage_put_generation (cs : CacheStorage) (name : string)
    (key : Request) (v : Response) (c : Cache) :
  generation cs name = Some c ->
  generation (storage_put cs name key v) name = Some (cache_put c key v).
Proof.
  induction cs as [| [n c0] cs IH]; simpl; [discriminate |].
  destruct (name =? n) eqn:E; simpl; rewrite E.
  - now intros [= ->].
  - exact IH.
Qed.

(** After [caches.open(name).then(cache => cache.put(key, v))] the
    generation [name] answers [key] with [v]. *)
Lemma open_put_stored (cs : CacheStorage) (name : string)
    (key : Request) (v : Response) :
  exists c, generation (storage_put (caches_open cs name) name key v) name = Some c
            /\ cache_match c key = Some v.
Proof.
  destruct (caches_open_generation cs name) as [c0 H0].
  exists (cache_put c0 key v). split.
  - now apply storage_put_generation.
  - apply cache_put_match.
Qed.

(** Runs the worker on a world whose queue is known. *)
Ltac run_worker :=
  cbv [handle_fetch handle_install handle_activate
       drain exec run_job bind ret emit start start_all
       get_caches set_caches set_reply set_queue fulfil
       serve_or_fetch store_and_return delete_stale
       event_waitUntil event_respondWith self_skipWaiting clients_claim
       install_listener activate_listener
       page_result snd fst queue caches log reply app init].

(** *** How the fetch listener classifies a request *)

Section Classification.

Variable self_location : URL.
Variable network : Request -> option Response.
Variable request : Request.
Variable cs : CacheStorage.

Lemma fetch_listener_same_origin :
  method request = "GET" ->
  origin (url request) = origin self_location ->
  exec (fetch_listener self_location request) (init cs)
  = {| caches := cs; log := [EvRespondWith];
       queue := [JMatch request (ThenServeOrFetch request)];
       reply := Pending |}.
Proof.
  intros Hm Ho. unfold fetch_listener, exec.
  rewrite Hm, Ho, !String.eqb_refl. reflexivity.
Qed.

Lemma fetch_listener_remote :
  method request = "GET" ->
  origin (url request) <> origin self_location ->
  is_allow_listed (url request) = true ->
  exec (fetch_listener self_location request) (init cs)
  = {| caches := cs; log := [EvRespondWith];
       queue := [JFetch request Remote];
       reply := Pending |}.
Proof.
  intros Hm Ho Ha. unfold fetch_listener, exec.
  apply String.eqb_neq in Ho. unfold is_allow_listed in Ha.
  rewrite Hm, Ho, Ha. reflexivity.
Qed.

Lemma fetch_listener_ignored :
  method request <> "GET"
  \/ (origin (url request) <> origin self_location
      /\ is_allow_listed (url request) = false) ->
  exec (fetch_listener self_location request) (init cs) = init cs.
Proof.
  unfold fetch_listener, exec.
  intros [Hm | [Ho Ha]].
  - apply String.eqb_neq in Hm. now rewrite Hm.
  - apply String.eqb_neq in Ho. unfold is_allow_listed in Ha.
    rewrite Ho, Ha. now destruct (negb (method request =? "GET")).
Qed.

End Classification.

(** ** The fetch listener *)

(** C1: a same-origin GET whose key the cache storage holds is answered
    with the stored snapshot; the network is not called and nothing is
    written. *)
Theorem same_origin_hit_is_served_from_cache
    (self_location : URL) (network : Request -> option Response)
    (request : Request) (cs : CacheStorage) (stored : Response) :
  method request = "GET" ->
  origin (url request) = origin self_location ->
  caches_match cs request = Some stored ->
  let w := handle_fetch self_location network request cs in
  reply w = Replied (Some stored)
  /\ page_result network request w = Served stored
  /\ network_calls (log w) = []
  /\ cache_writes (log w) = []
  /\ cache_accesses (log w) = [EvLookup request (Some stored)]
  /\ caches w = cs
  /\ queue w = [].
Proof.
  intros Hm Ho Hc w. subst w.
  unfold handle_fetch.
  rewrite fetch_listener_same_origin by assumption.
  run_worker. rewrite Hc. run_worker.
  repeat split; reflexivity.
Qed.

Lemma same_origin_hit_witness :
  let cs := [(CACHE_VERSION, [(Sample.page "/", Sample.html "shell")])] in
  let w := handle_fetch Sample.app Sample.offline (Sample.page "/") cs in
  reply w = Replied (Some (Sample.html "shell"))
  /\ page_result Sample.offline (Sample.page "/") w = Served (Sample.html "shell")
  /\ network_calls (log w) = []
  /\ cache_writes (log w) = []
  /\ cache_accesses (log w)
     = [EvLookup (Sample.page "/") (Some (Sample.html "shell"))]
  /\ caches w = cs
  /\ queue w = [].
Proof.
  intros cs w.
  apply (same_origin_hit_is_served_from_cache
           Sample.app Sample.offline (Sample.page "/") cs (Sample.html "shell"));
    reflexivity.
Defined.

(** The remote branch when the network answers. *)
Lemma remote_success_run
    (self_location : URL) (network : Request -> option Response)
    (request : Request) (cs : CacheStorage) (response : Response) :
  method request = "GET" ->
  origin (url request) <> origin self_location ->
  is_allow_listed (url request) = true ->
  network request = Some response ->
  handle_fetch self_location network request cs
  = {| caches := if put_accepts response
                 then storage_put (caches_open cs CACHE_VERSION) CACHE_VERSION
                        request (clone response)
                 else caches_open cs CACHE_VERSION;
       log := [EvRespondWith; EvNetwork request (Some response);
               EvReply (Some response); EvOpen CACHE_VERSION]
              ++ put_log request (clone response);
       queue := [];
       reply := Replied (Some response) |}.
Proof.
  intros Hm Ho Ha Hn. unfold handle_fetch.
  rewrite fetch_listener_remote by assumption.
  run_worker. rewrite Hn. run_worker.
  unfold put_log. rewrite put_accepts_clone.
  destruct (put_accepts response); reflexivity.
Qed.

Lemma allow_listed_iff (u : URL) :
  is_allow_listed u = true
  <-> hostname u = "batteryapi.liese.space" \/ hostname u = "thingspeak.com".
Proof.
  unfold is_allow_listed. now rewrite orb_true_iff, !String.eqb_eq.
Qed.

Lemma not_allow_listed_iff (u : URL) :
  is_allow_listed u = false
  <-> hostname u <> "batteryapi.liese.space" /\ hostname u <> "thingspeak.com".
Proof.
  unfold is_allow_listed. now rewrite orb_false_iff, !String.eqb_neq.
Qed.

(** A fetch that the listener made and that was answered: the answer is
    the reply, and the answer is handed to [cache.put]. *)
Lemma fetch_success_run
    (self_location : URL) (network : Request -> option Response)
    (request : Request) (cs : CacheStorage) (response : Response) :
  In (EvNetwork request (Some response))
     (log (handle_fetch self_location network request cs)) ->
  exists pre,
    (pre = [EvRespondWith] \/ pre = [EvRespondWith; EvLookup request None])
    /\ handle_fetch self_location network request cs
       = {| caches := if put_accepts response
                      then storage_put (caches_open cs CACHE_VERSION)
                             CACHE_VERSION request (clone response)
                      else caches_open cs CACHE_VERSION;
            log := (pre ++ [EvNetwork request (Some response);
                            EvReply (Some response); EvOpen CACHE_VERSION])
                   ++ put_log request (clone response);
            queue := [];
            reply := Replied (Some response) |}.
Proof.
  unfold handle_fetch, fetch_listener, exec, put_log.
  destruct (negb (method request =? "GET")); [intros [] |].
  destruct (origin (url request) =? origin self_location).
  - run_worker. destruct (caches_match cs request) as [stored |].
    + run_worker. intros H.
      repeat (destruct H as [H | H]; try discriminate H). contradiction.
    + run_worker. destruct (network request) as [r |].
      * run_worker. rewrite put_accepts_clone. intros H.
        assert (r = response) as ->.
        { destruct (put_accepts r);
            repeat (destruct H as [H | H]; try discriminate H);
            try contradiction; now injection H. }
        exists [EvRespondWith; EvLookup request None]. split; [now right |].
        rewrite ?put_accepts_clone.
        destruct (put_accepts response); reflexivity.
      * run_worker. intros H.
        repeat (destruct H as [H | H]; try discriminate H). contradiction.
  - destruct ((hostname (url request) =? "batteryapi.liese.space")
              || (hostname (url request) =? "thingspeak.com")); [| intros []].
    run_worker. destruct (network request) as [r |].
    + run_worker. rewrite put_accepts_clone. intros H.
      assert (r = response) as ->.
      { destruct (put_accepts r);
          repeat (destruct H as [H | H]; try discriminate H);
          try contradiction; now injection H. }
      exists [EvRespondWith]. split; [now left |].
      rewrite ?put_accepts_clone.
      destruct (put_accepts response); reflexivity.
    + run_worker. intros H.
      repeat (destruct H as [H | H]; try discriminate H). contradiction.
Qed.

(** C2, as the claim states it, fails: [cache.put] rejects a response
    with status 206 (and one whose [Vary] header names [*]), so such a
    response is returned to the caller and nothing is stored. *)
Lemma partial_content_is_returned_but_not_stored :
  ~ (forall (self_location : URL) (network : Request -> option Response)
            (request : Request) (cs : CacheStorage) (response : Response),
        method request = "GET" ->
        hostname (url request) = "batteryapi.liese.space"
        \/ hostname (url request) = "thingspeak.com" ->
        network request = Some response ->
        let w := handle_fetch self_location network request cs in
        reply w = Replied (Some response)
        /\ exists c, generation (caches w) CACHE_VERSION = Some c
                     /\ cache_match c request = Some response).
Proof.
  intros claim.
  destruct (claim Sample.app (Sample.serving Sample.partial) Sample.stats []
                  Sample.partial eq_refl (or_introl eq_refl) eq_refl)
    as [_ [c [Hg Hc]]].
  vm_compute in Hg. injection Hg as <-. discriminate Hc.
Qed.

(** C2, amended: for a GET to an allow-listed host, when the network
    fetch succeeds the response returned to the caller is the network
    response, and a clone of it is stored into the current generation
    under the request, unless the response has status 206 or a [Vary]
    header naming [*]: then nothing is stored.  For a host that is not
    the application's own origin the fetch is made whatever the cache
    holds, without a lookup. *)
Theorem remote_success_is_network_first
    (self_location : URL) (network : Request -> option Response)
    (request : Request) (cs : CacheStorage) (response : Response) :
  method request = "GET" ->
  hostname (url request) = "batteryapi.liese.space"
  \/ hostname (url request) = "thingspeak.com" ->
  let w := handle_fetch self_location network request cs in
  (origin (url request) <> origin self_location ->
   network request = Some response ->
   In (EvNetwork request (Some response)) (log w) /\ lookups (log w) = [])
  /\ (In (EvNetwork request (Some response)) (log w) ->
      reply w = Replied (Some response)
      /\ page_result network request w = Served response
      /\ network_calls (log w) = [EvNetwork request (Some response)]
      /\ (put_accepts response = true ->
          cache_writes (log w) = [EvPut CACHE_VERSION request (clone response)]
          /\ exists c, generation (caches w) CACHE_VERSION = Some c
                       /\ cache_match c request = Some response)
      /\ (put_accepts response = false ->
          cache_writes (log w) = []
          /\ caches w = caches_open cs CACHE_VERSION)
      /\ queue w = []).
Proof.
  intros Hm Ha w. subst w. split.
  - intros Ho Hn. apply allow_listed_iff in Ha.
    rewrite (remote_success_run _ _ _ _ _ Hm Ho Ha Hn). cbv [log].
    unfold put_log. destruct (put_accepts (clone response)); split;
      (reflexivity || (simpl; tauto)).
  - intros Hin.
    destruct (fetch_success_run _ _ _ _ _ Hin) as [pre [Hpre ->]].
    cbv [page_result reply log caches queue]. unfold put_log.
    rewrite put_accepts_clone.
    repeat match goal with |- _ /\ _ => split end; try reflexivity.
    + destruct Hpre as [-> | ->]; destruct (put_accepts response); reflexivity.
    + intros Hp. rewrite Hp. split.
      * destruct Hpre as [-> | ->]; reflexivity.
      * destruct (open_put_stored cs CACHE_VERSION request (clone response))
          as [c [Hg Hc]].
        exists c. split; [exact Hg |]. now rewrite Hc, clone_eq.
    + intros Hp. rewrite Hp. split; [| reflexivity].
      destruct Hpre as [-> | ->]; reflexivity.
Qed.

Lemma remote_success_witness :
  let w := handle_fetch Sample.app (Sample.serving (Sample.json "live"))
             Sample.stats [] in
  reply w = Replied (Some (Sample.json "live"))
  /\ generation (caches w) CACHE_VERSION
     = Some [(Sample.stats, Sample.json "live")].
Proof.
  intros w.
  destruct (remote_success_is_network_first
              Sample.app (Sample.serving (Sample.json "live"))
              Sample.stats [] (Sample.json "live"))
    as [Hmade Hdone].
  - reflexivity.
  - left. reflexivity.
  - destruct Hmade as [Hin _].
    + vm_compute. discriminate.
    + reflexivity.
    + destruct (Hdone Hin) as [Hr _].
      split; [exact Hr | reflexivity].
Defined.

(** The key of a request to another origin is not the root document's
    key. *)
Lemma foreign_request_is_not_root (self_location : URL) (request : Request) :
  origin (url request) <> origin self_location ->
  request <> root_request self_location.
Proof.
  intros Ho ->. apply Ho. reflexivity.
Qed.

(** C3: a GET to an allow-listed remote host whose network fetch fails is
    answered with the entry stored under the request's own key; without
    one the page sees a failed fetch.  The only lookup is by the
    request's key, which is not the root document's. *)
Theorem remote_failure_falls_back_to_exact_key
    (self_location : URL) (network : Request -> option Response)
    (request : Request) (cs : CacheStorage) :
  method request = "GET" ->
  origin (url request) <> origin self_location ->
  hostname (url request) = "batteryapi.liese.space"
  \/ hostname (url request) = "thingspeak.com" ->
  network request = None ->
  let w := handle_fetch self_location network request cs in
  (forall stored, caches_match cs request = Some stored ->
     reply w = Replied (Some stored)
     /\ page_result network request w = Served stored)
  /\ (caches_match cs request = None ->
      reply w = Replied None
      /\ page_result network request w = NetworkError)
  /\ lookups (log w) = [request]
  /\ request <> root_request self_location
  /\ cache_writes (log w) = []
  /\ caches w = cs
  /\ queue w = [].
Proof.
  intros Hm Ho Ha Hn w. subst w.
  apply allow_listed_iff in Ha. unfold handle_fetch.
  rewrite fetch_listener_remote by assumption.
  run_worker. rewrite Hn. run_worker.
  repeat match goal with |- _ /\ _ => split end; try reflexivity.
  - intros stored Hs. rewrite Hs. split; reflexivity.
  - intros Hs. rewrite Hs. split; reflexivity.
  - now apply foreign_request_is_not_root.
Qed.

(** The storage holds the root document and nothing for the stats
    request: the failure is not papered over with the root document. *)
Lemma remote_failure_witness :
  let cs := [(CACHE_VERSION, [(Sample.page "/", Sample.html "shell")])] in
  let w := handle_fetch Sample.app Sample.offline Sample.stats cs in
  reply w = Replied None
  /\ page_result Sample.offline Sample.stats w = NetworkError
  /\ lookups (log w) = [Sample.stats].
Proof.
  intros cs w.
  destruct (remote_failure_falls_back_to_exact_key
              Sample.app Sample.offline Sample.stats cs)
    as [_ [Hmiss [Hl _]]].
  - reflexivity.
  - vm_compute. discriminate.
  - left. reflexivity.
  - reflexivity.
  - destruct Hmiss as [Hr Hp]; [reflexivity |].
    split; [exact Hr | split; [exact Hp | exact Hl]].
Defined.

(** C4: a same-origin GET that misses the cache and whose network fetch
    fails is answered by a lookup of the root document; without a cached
    root document the page sees a failed fetch. *)
Theorem same_origin_offline_miss_falls_back_to_root
    (self_location : URL) (network : Request -> option Response)
    (request : Request) (cs : CacheStorage) :
  method request = "GET" ->
  origin (url request) = origin self_location ->
  caches_match cs request = None ->
  network request = None ->
  let w := handle_fetch self_location network request cs in
  lookups (log w) = [request; root_request self_location]
  /\ (forall root, caches_match cs (root_request self_location) = Some root ->
        reply w = Replied (Some root)
        /\ page_result network request w = Served root)
  /\ (caches_match cs (root_request self_location) = None ->
      reply w = Replied None
      /\ page_result network request w = NetworkError)
  /\ cache_writes (log w) = []
  /\ caches w = cs
  /\ queue w = [].
Proof.
  intros Hm Ho Hc Hn w. subst w. unfold handle_fetch.
  rewrite fetch_listener_same_origin by assumption.
  run_worker. rewrite Hc. run_worker. rewrite Hn. run_worker.
  repeat match goal with |- _ /\ _ => split end; try reflexivity.
  - intros root Hs. rewrite Hs. split; reflexivity.
  - intros Hs. rewrite Hs. split; reflexivity.
Qed.

Lemma same_origin_offline_miss_witness :
  let cs := [(CACHE_VERSION, [(Sample.page "/", Sample.html "shell")])] in
  let w := handle_fetch Sample.app Sample.offline (Sample.page "/settings") cs in
  lookups (log w) = [Sample.page "/settings"; Sample.page "/"]
  /\ reply w = Replied (Some (Sample.html "shell")).
Proof.
  intros cs w.
  destruct (same_origin_offline_miss_falls_back_to_root
              Sample.app Sample.offline (Sample.page "/settings") cs)
    as [Hl [Hroot _]]; try reflexivity.
  destruct (Hroot (Sample.html "shell")) as [Hr _]; [reflexivity |].
  split; [exact Hl | exact Hr].
Defined.

(** C5: a request that is not a GET, or a GET to a foreign host outside
    the allow-list, passes the listener without any access to the cache
    storage. *)
Theorem ignored_requests_touch_no_cache
    (self_location : URL) (network : Request -> option Response)
    (request : Request) (cs : CacheStorage) :
  method request <> "GET"
  \/ (method request = "GET"
      /\ origin (url request) <> origin self_location
      /\ hostname (url request) <> "batteryapi.liese.space"
      /\ hostname (url request) <> "thingspeak.com") ->
  let w := handle_fetch self_location network request cs in
  cache_accesses (log w) = []
  /\ log w = []
  /\ caches w = cs
  /\ reply w = NotIntercepted
  /\ queue w = [].
Proof.
  intros H w. subst w. unfold handle_fetch.
  rewrite fetch_listener_ignored.
  - repeat split; reflexivity.
  - destruct H as [Hm | [_ [Ho [H1 H2]]]]; [now left | right].
    split; [exact Ho |]. now apply not_allow_listed_iff.
Qed.

Lemma ignored_requests_witness :
  let cs := [(CACHE_VERSION, [(Sample.stats, Sample.json "1")])] in
  (caches (handle_fetch Sample.app Sample.offline Sample.post_stats cs) = cs
   /\ log (handle_fetch Sample.app Sample.offline Sample.post_stats cs) = [])
  /\ (caches (handle_fetch Sample.app Sample.offline Sample.elsewhere cs) = cs
      /\ log (handle_fetch Sample.app Sample.offline Sample.elsewhere cs) = []).
Proof.
  intros cs. split.
  - destruct (ignored_requests_touch_no_cache
                Sample.app Sample.offline Sample.post_stats cs)
      as [_ [Hl [Hc _]]].
    + left. vm_compute. discriminate.
    + split; [exact Hc | exact Hl].
  - destruct (ignored_requests_touch_no_cache
                Sample.app Sample.offline Sample.elsewhere cs)
      as [_ [Hl [Hc _]]].
    + right. repeat split; vm_compute; discriminate || reflexivity.
    + split; [exact Hc | exact Hl].
Defined.

(** ** Install and activate *)

Lemma emit_all_run (es : list Event) (w : World) :
  exec (emit_all es) w
  = {| caches := caches w; log := log w ++ es;
       queue := queue w; reply := reply w |}.
Proof.
  revert w. induction es as [| e es IH]; intros w.
  - destruct w. cbv [exec emit_all ret snd caches log queue reply].
    now rewrite app_nil_r.
  - change (exec (emit_all (e :: es)) w)
      with (exec (emit_all es) (exec (emit e) w)).
    rewrite IH. cbv [exec emit snd caches log queue reply].
    now rewrite <- app_assoc.
Qed.

Lemma drain_idle (self_location : URL) (network : Request -> option Response)
    (fuel : nat) (w : World) :
  queue w = [] -> drain self_location network fuel w = w.
Proof. intros H. destruct fuel; simpl; [| rewrite H]; reflexivity. Qed.

Section Install.

Variable self_location : URL.
Variable network : Request -> option Response.

Lemma handle_install_run (cs : CacheStorage) :
  handle_install self_location network cs
  = match batch (shell_fetches self_location network) with
    | Some entries =>
        {| caches := put_entries CACHE_VERSION entries
                       (caches_open cs CACHE_VERSION);
           log := (install_prefix self_location network
                   ++ map (fun e => EvPut CACHE_VERSION (fst e) (snd e)) entries)
                  ++ [EvSettled true];
           queue := [];
           reply := NotIntercepted |}
    | None =>
        {| caches := caches_open cs CACHE_VERSION;
           log := install_prefix self_location network ++ [EvSettled false];
           queue := [];
           reply := NotIntercepted |}
    end.
Proof.
  unfold install_prefix, shell_fetches.
  run_worker. unfold cache_addAll.
  cbv [bind]. 
  match goal with
  | |- context [emit_all ?es ?w] =>
      pose proof (emit_all_run es w) as E; unfold exec in E;
      destruct (emit_all es w) as [u w1]; simpl in E; subst w1
  end.
  destruct (batch _) as [entries |].
  - cbv [get_caches set_caches caches log queue reply].
    match goal with
    | |- context [emit_all ?es ?w] =>
        pose proof (emit_all_run es w) as E; unfold exec in E;
        destruct (emit_all es w) as [u' w1]; simpl in E; subst w1
    end.
    reflexivity.
  - reflexivity.
Qed.

End Install.

(** What [cache.addAll] writes: the fetched pairs themselves, all of
    them [ok], and one per request. *)
Lemma batch_entries (fetched : list (Request * option Response))
    (entries : list (Request * Response)) :
  batch fetched = Some entries ->
  map fst entries = map fst fetched
  /\ forall key v, In (key, v) entries ->
                   In (key, Some v) fetched /\ ok v = true.
Proof.
  revert entries.
  induction fetched as [| [req [v |]] rest IH]; simpl; intros entries H.
  - injection H as <-. split; [reflexivity | intros ? ? []].
  - destruct (ok v) eqn:Hok; [| discriminate].
    destruct (put_accepts v); [| discriminate]. simpl in H.
    destruct (batch rest) as [es |]; [| discriminate].
    injection H as <-. destruct (IH es eq_refl) as [Hk Hin].
    split; [simpl; now rewrite Hk |].
    intros key v' [Heq | Hi].
    + injection Heq as <- <-. split; [now left | exact Hok].
    + destruct (Hin key v' Hi) as [H1 H2]. split; [now right | exact H2].
  - discriminate.
Qed.

(** ... and none of them one that a cache refuses. *)
Lemma batch_entries_accepted (fetched : list (Request * option Response))
    (entries : list (Request * Response)) :
  batch fetched = Some entries ->
  forall key v, In (key, v) entries -> put_accepts v = true.
Proof.
  revert entries.
  induction fetched as [| [req [v |]] rest IH]; simpl; intros entries H.
  - injection H as <-. intros ? ? [].
  - destruct (ok v); [| discriminate].
    destruct (put_accepts v) eqn:Hp; [| discriminate]. simpl in H.
    destruct (batch rest) as [es |]; [| discriminate].
    injection H as <-.
    intros key v' [Heq | Hi]; [now injection Heq as <- <- | eauto].
  - discriminate.
Qed.

Lemma filter_filter_and {A} (p q : A -> bool) (l : list A) :
  filter p (filter q l) = filter (fun x => q x && p x) l.
Proof.
  induction l as [| a l IH]; simpl; [reflexivity |].
  destruct (q a); simpl; [destruct (p a) |]; now rewrite IH.
Qed.

Lemma delete_all (names : list string) (cs : CacheStorage) :
  fold_left caches_delete names cs
  = filter (fun g => negb (existsb (String.eqb (fst g)) names)) cs.
Proof.
  revert cs. induction names as [| n names IH]; intros cs; simpl.
  - induction cs as [| g cs IHcs]; simpl; [| rewrite <- IHcs]; reflexivity.
  - rewrite IH. unfold caches_delete. rewrite filter_filter_and.
    apply filter_ext. intros g. now rewrite negb_orb.
Qed.

Lemma delete_stale_keeps_current (cs : CacheStorage) :
  fold_left caches_delete (stale cs) cs
  = filter (fun g => fst g =? CACHE_VERSION) cs.
Proof.
  rewrite delete_all. apply filter_ext_in. intros g Hg.
  destruct (fst g =? CACHE_VERSION) eqn:E.
  - apply negb_true_iff. apply not_true_is_false. intros Hex.
    apply existsb_exists in Hex. destruct Hex as [n [Hn Hgn]].
    apply String.eqb_eq in Hgn. subst n.
    unfold stale in Hn. apply filter_In in Hn. destruct Hn as [_ Hn].
    rewrite E in Hn. discriminate.
  - apply negb_false_iff. apply existsb_exists. exists (fst g). split.
    + unfold stale. apply filter_In. split.
      * unfold caches_keys. now apply in_map.
      * now rewrite E.
    + apply String.eqb_refl.
Qed.

Section Activate.

Variable self_location : URL.
Variable network : Request -> option Response.

Lemma drain_deletes (names : list string) (tail : list Job) :
  forall (fuel : nat) (w : World),
    queue w = map JDelete names ++ tail ->
    drain self_location network (length names + fuel) w
    = drain self_location network fuel
        {| caches := fold_left caches_delete names (caches w);
           log := log w ++ map EvDelete names;
           queue := tail;
           reply := reply w |}.
Proof.
  induction names as [| n names IH]; intros fuel w Hq; simpl in *.
  - rewrite app_nil_r. destruct w; simpl in *. now subst.
  - rewrite Hq. run_worker. fold (drain self_location network).
    rewrite IH by reflexivity. simpl. now rewrite <- app_assoc.
Qed.

Lemma handle_activate_run (cs : CacheStorage) :
  handle_activate self_location network cs
  = {| caches := filter (fun g => fst g =? CACHE_VERSION) cs;
       log := ([EvWaitUntil; EvClaim; EvKeys (caches_keys cs)]
               ++ map EvDelete (stale cs)) ++ [EvSettled true];
       queue := [];
       reply := NotIntercepted |}.
Proof.
  unfold handle_activate.
  assert (Hlen : exists k, 1 + length cs = length (stale cs) + S k).
  { exists (length cs - length (stale cs)).
    assert (length (stale cs) <= length cs).
    { unfold stale, caches_keys.
      rewrite <- (length_map fst cs). apply filter_length_le. }
    lia. }
  destruct Hlen as [k Hk].
  change (2 + length cs) with (S (1 + length cs)). rewrite Hk.
  cbv [activate_listener event_waitUntil clients_claim exec bind start emit
       init snd caches log queue reply app].
  change (drain self_location network (S (length (stale cs) + S k)) ?w)
    with (drain self_location network (length (stale cs) + S k)
            (exec (run_job self_location network JKeys) (set_queue [] w))).
  cbv [exec run_job bind get_caches emit delete_stale start_all set_queue
       snd caches log queue reply app].
  fold (stale cs).
  rewrite (drain_deletes (stale cs) [JAll]) by reflexivity.
  cbv [caches log queue reply].
  rewrite delete_stale_keeps_current.
  change (drain self_location network (S k) ?w)
    with (drain self_location network k
            (exec (run_job self_location network JAll) (set_queue [] w))).
  rewrite drain_idle by reflexivity.
  reflexivity.
Qed.

End Activate.

(** ** Every run of the fetch listener *)

Section FetchRuns.

Variable self_location : URL.
Variable network : Request -> option Response.
Variable request : Request.
Variable cs : CacheStorage.

Lemma handle_fetch_runs :
  FetchRun self_location network request cs
    (log (handle_fetch self_location network request cs)).
Proof.
  unfold handle_fetch, fetch_listener, exec.
  destruct (negb (method request =? "GET")); [apply RunIgnored |].
  destruct (origin (url request) =? origin self_location).
  - run_worker. destruct (caches_match cs request) as [stored |] eqn:Hc.
    + run_worker. now apply RunHit.
    + run_worker. destruct (network request) as [response |] eqn:Hn.
      * run_worker. pose proof (RunRefill self_location network request cs response Hc Hn) as R.
        unfold put_log in R.
        destruct (put_accepts (clone response)); exact R.
      * run_worker. now apply RunRootFallback.
  - destruct ((hostname (url request) =? "batteryapi.liese.space")
              || (hostname (url request) =? "thingspeak.com"));
      [| apply RunIgnored].
    run_worker. destruct (network request) as [response |] eqn:Hn.
    + run_worker. pose proof (RunRemote self_location network request cs response Hn) as R.
      unfold put_log in R.
      destruct (put_accepts (clone response)); exact R.
    + run_worker. now apply RunRemoteFallback.
Qed.

(** Four settlements are enough for anything the fetch listener starts:
    nothing is left pending. *)
Lemma handle_fetch_quiescent :
  queue (handle_fetch self_location network request cs) = []
  /\ reply (handle_fetch self_location network request cs) <> Pending.
Proof.
  unfold handle_fetch, fetch_listener, exec.
  destruct (negb (method request =? "GET")); [split; [reflexivity | discriminate] |].
  destruct (origin (url request) =? origin self_location).
  - run_worker. destruct (caches_match cs request) as [stored |].
    + run_worker. split; [reflexivity | discriminate].
    + run_worker. destruct (network request) as [response |];
        run_worker; try destruct (put_accepts (clone response));
        split; (reflexivity || discriminate).
  - destruct ((hostname (url request) =? "batteryapi.liese.space")
              || (hostname (url request) =? "thingspeak.com"));
      [| split; [reflexivity | discriminate]].
    run_worker. destruct (network request) as [response |];
      run_worker; try destruct (put_accepts (clone response));
      split; (reflexivity || discriminate).
Qed.

Lemma fetch_run_writes (l : list Event) (name : string)
    (key : Request) (v : Response) :
  FetchRun self_location network request cs l -> In (EvPut name key v) l ->
  name = CACHE_VERSION /\ key = request /\ network request = Some v
  /\ put_accepts v = true.
Proof.
  intros Hrun Hin.
  destruct Hrun; unfold put_log in Hin;
    try destruct (put_accepts (clone response)) eqn:Hp;
    simpl in Hin;
    repeat (destruct Hin as [Hin | Hin]; try discriminate Hin);
    try contradiction;
    injection Hin as <- <- <-; rewrite clone_eq in *; auto.
Qed.

Lemma fetch_run_lookups (l : list Event) (key : Request)
    (found : option Response) :
  FetchRun self_location network request cs l ->
  In (EvLookup key found) l ->
  found = caches_match cs key
  /\ (key = request \/ key = root_request self_location).
Proof.
  intros Hrun Hin.
  destruct Hrun; unfold put_log in Hin;
    try destruct (put_accepts (clone response));
    simpl in Hin;
    repeat (destruct Hin as [Hin | Hin]; try discriminate Hin);
    try contradiction;
    injection Hin as <- <-; auto.
Qed.

End FetchRuns.

(** ** What is written, and when *)

(** C6, as the claim states it, fails: [fetch] resolves for any status
    and the refill does not test [response.ok], so a 404 for a page that
    is not cached is written into the current generation. *)
Lemma refill_stores_unsuccessful_response :
  ~ (forall (self_location : URL) (network : Request -> option Response)
            (request : Request) (cs : CacheStorage)
            (name : string) (key : Request) (v : Response),
        In (EvPut name key v)
           (log (handle_fetch self_location network request cs)) ->
        ok v = true).
Proof.
  intros claim.
  specialize (claim Sample.app (Sample.serving Sample.not_found)
                    (Sample.page "/missing") []
                    CACHE_VERSION (Sample.page "/missing") Sample.not_found).
  assert (H : ok Sample.not_found = true).
  { apply claim. vm_compute. tauto. }
  vm_compute in H. discriminate H.
Qed.

(** C6, amended: every entry written is the response the network gave
    for its key, status, headers and body.  The fetch phase writes the
    response of every fetch that resolved, whatever its status, into the
    current generation under the request, except a response with status
    206 or with a [Vary] header naming [*], for which nothing is
    written.  The install population writes only [ok] responses that a
    cache stores, and writes an entry for each manifest resource or none
    at all. *)
Theorem stored_entries_are_network_snapshots
    (self_location : URL) (network : Request -> option Response)
    (cs : CacheStorage) :
  (forall request name key v,
      In (EvPut name key v)
         (log (handle_fetch self_location network request cs)) ->
      name = CACHE_VERSION /\ key = request /\ network request = Some v
      /\ put_accepts v = true)
  /\ (forall request v,
         In (EvNetwork request (Some v))
            (log (handle_fetch self_location network request cs)) ->
         put_accepts v = true ->
         In (EvPut CACHE_VERSION request v)
            (log (handle_fetch self_location network request cs))
         /\ exists c,
              generation (caches (handle_fetch self_location network request cs))
                CACHE_VERSION = Some c
              /\ cache_match c request = Some v)
  /\ (forall request v,
         In (EvNetwork request (Some v))
            (log (handle_fetch self_location network request cs)) ->
         put_accepts v = false ->
         cache_writes (log (handle_fetch self_location network request cs)) = []
         /\ caches (handle_fetch self_location network request cs)
            = caches_open cs CACHE_VERSION)
  /\ (forall name key v,
         In (EvPut name key v) (log (handle_install self_location network cs)) ->
         name = CACHE_VERSION /\ network key = Some v /\ ok v = true
         /\ put_accepts v = true
         /\ In key (map (resolve self_location) APP_SHELL))
  /\ (cache_writes (log (handle_install self_location network cs)) = []
      \/ exists entries,
           cache_writes (log (handle_install self_location network cs))
           = map (fun e => EvPut CACHE_VERSION (fst e) (snd e)) entries
           /\ map fst entries = map (resolve self_location) APP_SHELL).
Proof.
  split; [| split; [| split; [| split]]].
  - intros request name key v Hin.
    eapply fetch_run_writes; [apply handle_fetch_runs | exact Hin].
  - intros request v Hin Hp.
    destruct (fetch_success_run _ _ _ _ _ Hin) as [pre [_ ->]].
    cbv [log caches]. unfold put_log. rewrite put_accepts_clone, Hp, clone_eq.
    split.
    + apply in_app_iff. right. now left.
    + destruct (open_put_stored cs CACHE_VERSION request v) as [c [Hg Hc]].
      now exists c.
  - intros request v Hin Hp.
    destruct (fetch_success_run _ _ _ _ _ Hin) as [pre [Hpre ->]].
    cbv [log caches]. unfold put_log. rewrite put_accepts_clone, Hp.
    split; [| reflexivity]. destruct Hpre as [-> | ->]; reflexivity.
  - intros name key v. rewrite handle_install_run.
    destruct (batch (shell_fetches self_location network)) as [entries |] eqn:Hb.
    + destruct (batch_entries _ _ Hb) as [Hkeys Hall].
      pose proof (batch_entries_accepted _ _ Hb) as Hacc.
      cbv [log]. unfold install_prefix. rewrite !in_app_iff.
      intros [[[Hin | Hin] | Hin] | Hin].
      * simpl in Hin. repeat (destruct Hin as [Hin | Hin]; try discriminate Hin).
        contradiction.
      * apply in_map_iff in Hin. destruct Hin as [f [Hf _]]. discriminate Hf.
      * apply in_map_iff in Hin. destruct Hin as [[k v'] [He Hin]].
        simpl in He. injection He as <- <- <-.
        destruct (Hall _ _ Hin) as [Hf Hok].
        pose proof (Hacc _ _ Hin) as Hp.
        unfold shell_fetches in Hf. apply in_map_iff in Hf.
        destruct Hf as [req [Hreq Hshell]]. injection Hreq as -> Hn.
        repeat split; auto.
      * simpl in Hin. destruct Hin as [Hin | []]. discriminate Hin.
    + cbv [log]. unfold install_prefix. rewrite !in_app_iff.
      intros [[Hin | Hin] | Hin].
      * simpl in Hin. repeat (destruct Hin as [Hin | Hin]; try discriminate Hin).
        contradiction.
      * apply in_map_iff in Hin. destruct Hin as [f [Hf _]]. discriminate Hf.
      * simpl in Hin. destruct Hin as [Hin | []]. discriminate Hin.
  - rewrite handle_install_run.
    assert (Hnet : forall fs : list (Request * option Response),
               filter is_write (map (fun f => EvNetwork (fst f) (snd f)) fs) = []).
    { induction fs as [| f fs IH]; simpl; auto. }
    assert (Hput : forall es : list (Request * Response),
               filter is_write
                 (map (fun e => EvPut CACHE_VERSION (fst e) (snd e)) es)
               = map (fun e => EvPut CACHE_VERSION (fst e) (snd e)) es).
    { induction es as [| e es IH]; simpl; [| rewrite IH]; reflexivity. }
    destruct (batch (shell_fetches self_location network)) as [entries |] eqn:Hb.
    + right. exists entries. split.
      * cbv [log]. unfold cache_writes, install_prefix.
        rewrite !filter_app, Hnet, Hput. simpl. now rewrite app_nil_r.
      * destruct (batch_entries _ _ Hb) as [Hkeys _]. rewrite Hkeys.
        unfold shell_fetches. rewrite map_map. cbn [fst]. apply map_id.
    + left. cbv [log]. unfold cache_writes, install_prefix.
      rewrite !filter_app, Hnet. reflexivity.
Qed.

(** A 404 and a 200 are both written by the refill; a 206 is not. *)
Lemma stored_entries_witness :
  In (EvPut CACHE_VERSION (Sample.page "/missing") Sample.not_found)
     (log (handle_fetch Sample.app (Sample.serving Sample.not_found)
             (Sample.page "/missing") []))
  /\ In (EvPut CACHE_VERSION Sample.stats (Sample.json "live"))
        (log (handle_fetch Sample.app (Sample.serving (Sample.json "live"))
                Sample.stats []))
  /\ cache_writes (log (handle_fetch Sample.app (Sample.serving Sample.partial)
                          Sample.stats [])) = [].
Proof.
  destruct (stored_entries_are_network_snapshots
              Sample.app (Sample.serving Sample.not_found) [])
    as [_ [Hmissing _]].
  destruct (stored_entries_are_network_snapshots
              Sample.app (Sample.serving (Sample.json "live")) [])
    as [_ [Hlive _]].
  destruct (stored_entries_are_network_snapshots
              Sample.app (Sample.serving Sample.partial) [])
    as [_ [_ [Hpartial _]]].
  split; [| split].
  - apply (Hmissing (Sample.page "/missing") Sample.not_found);
      [vm_compute; tauto | reflexivity].
  - apply (Hlive Sample.stats (Sample.json "live"));
      [vm_compute; tauto | reflexivity].
  - apply (Hpartial Sample.stats Sample.partial);
      [vm_compute; tauto | reflexivity].
Defined.

(** ** Which generations a lookup searches *)

(** C7, as the claim states it, fails: the listener calls [caches.match]
    on the storage, so an entry that only an older generation holds is
    found and served. *)
Lemma lookup_finds_entry_of_older_generation :
  ~ (forall (self_location : URL) (network : Request -> option Response)
            (request : Request) (cs : CacheStorage)
            (key : Request) (found : option Response),
        In (EvLookup key found)
           (log (handle_fetch self_location network request cs)) ->
        found = current_match cs key).
Proof.
  intros claim.
  specialize (claim Sample.app Sample.offline (Sample.page "/")
                    [("garden-battery-v0",
                      [(Sample.page "/", Sample.html "old shell")]);
                     (CACHE_VERSION, [])]
                    (Sample.page "/") (Some (Sample.html "old shell"))).
  assert (H : Some (Sample.html "old shell")
              = current_match
                  [("garden-battery-v0",
                    [(Sample.page "/", Sample.html "old shell")]);
                   (CACHE_VERSION, [])]
                  (Sample.page "/")).
  { apply claim. vm_compute. tauto. }
  vm_compute in H. discriminate H.
Qed.

Lemma single_generation_match (c : Cache) (key : Request) :
  caches_match [(CACHE_VERSION, c)] key
  = current_match [(CACHE_VERSION, c)] key.
Proof.
  unfold current_match. simpl.
  now destruct (cache_match c key).
Qed.

(** C7, amended: every lookup of the fetch phase is by the request's key
    or by the root document's and searches all generations of the
    storage in creation order, yielding the first entry stored under the
    key; when the current generation is the only one in the storage this
    is a lookup in the current generation. *)
Theorem lookups_search_every_generation
    (self_location : URL) (network : Request -> option Response)
    (request : Request) (cs : CacheStorage)
    (key : Request) (found : option Response) :
  In (EvLookup key found)
     (log (handle_fetch self_location network request cs)) ->
  found = caches_match cs key
  /\ (key = request \/ key = root_request self_location)
  /\ (forall c, cs = [(CACHE_VERSION, c)] -> found = current_match cs key).
Proof.
  intros Hin.
  destruct (fetch_run_lookups self_location network request cs _ key found
              (handle_fetch_runs self_location network request cs) Hin)
    as [Hf Hk].
  split; [exact Hf | split; [exact Hk |]].
  intros c ->. rewrite Hf. apply single_generation_match.
Qed.

Lemma lookups_search_every_generation_witness :
  let cs := [("garden-battery-v0", [(Sample.page "/", Sample.html "old shell")]);
             (CACHE_VERSION, [])] in
  Some (Sample.html "old shell") = caches_match cs (Sample.page "/")
  /\ current_match cs (Sample.page "/") = None.
Proof.
  intros cs.
  destruct (lookups_search_every_generation
              Sample.app Sample.offline (Sample.page "/") cs
              (Sample.page "/") (Some (Sample.html "old shell")))
    as [Hf _].
  - vm_compute. tauto.
  - split; [exact Hf | reflexivity].
Defined.

(** ** When the listeners signal *)

(** C8, as the claim states it, fails for both listeners: each calls
    its signal in the statement after [event.waitUntil(...)], while the
    work handed to [waitUntil] has only been started. *)
Lemma signals_do_not_wait_for_completion :
  ~ (forall (self_location : URL) (network : Request -> option Response)
            (cs : CacheStorage),
        only_after is_skip_waiting is_settled
          (log (handle_install self_location network cs)) = true)
  /\ ~ (forall (self_location : URL) (network : Request -> option Response)
               (cs : CacheStorage),
           only_after is_claim is_settled
             (log (handle_activate self_location network cs)) = true).
Proof.
  split; intros claim.
  - specialize (claim Sample.app (Sample.serving (Sample.html "shell")) []).
    vm_compute in claim. discriminate claim.
  - specialize (claim Sample.app Sample.offline
                      [("garden-battery-v0", []); (CACHE_VERSION, [])]).
    vm_compute in claim. discriminate claim.
Qed.

(** C8, amended: the install listener signals skip-waiting right after
    it has handed the shell-manifest population to [waitUntil], before
    the generation is opened, any manifest resource is fetched or
    written, and the population settles; the activate listener signals
    claim right after it has handed the deletions to [waitUntil], before
    the generations are enumerated, any stale generation is deleted, and
    the deletions settle. *)
Theorem signals_precede_the_awaited_work
    (self_location : URL) (network : Request -> option Response)
    (cs : CacheStorage) :
  (exists rest,
      log (handle_install self_location network cs)
      = [EvWaitUntil; EvSkipWaiting] ++ rest
      /\ filter is_skip_waiting rest = []
      /\ In (EvOpen CACHE_VERSION) rest
      /\ (forall req, In req (map (resolve self_location) APP_SHELL) ->
            In (EvNetwork req (network req)) rest)
      /\ cache_writes rest
         = cache_writes (log (handle_install self_location network cs))
      /\ exists fulfilled, In (EvSettled fulfilled) rest)
  /\ (exists rest,
         log (handle_activate self_location network cs)
         = [EvWaitUntil; EvClaim] ++ rest
         /\ filter is_claim rest = []
         /\ In (EvKeys (caches_keys cs)) rest
         /\ (forall name, In name (stale cs) -> In (EvDelete name) rest)
         /\ In (EvSettled true) rest).
Proof.
  assert (Hnet : forall fs : list (Request * option Response),
             filter is_skip_waiting
               (map (fun f => EvNetwork (fst f) (snd f)) fs) = []).
  { induction fs as [| f fs IH]; simpl; auto. }
  assert (Hput : forall es : list (Request * Response),
             filter is_skip_waiting
               (map (fun e => EvPut CACHE_VERSION (fst e) (snd e)) es) = []).
  { induction es as [| e es IH]; simpl; auto. }
  assert (Hdel : forall names, filter is_claim (map EvDelete names) = []).
  { induction names as [| n names IH]; simpl; auto. }
  assert (Hfetched : forall req,
             In req (map (resolve self_location) APP_SHELL) ->
             In (EvNetwork req (network req))
                (map (fun f => EvNetwork (fst f) (snd f))
                   (shell_fetches self_location network))).
  { intros req Hreq. unfold shell_fetches. rewrite map_map. cbn [fst snd].
    apply in_map_iff. exists req. split; [reflexivity | exact Hreq]. }
  set (fetches := map (fun f => EvNetwork (fst f) (snd f))
                    (shell_fetches self_location network)) in *.
  split.
  - rewrite handle_install_run. unfold install_prefix. fold fetches.
    destruct (batch (shell_fetches self_location network)) as [entries |].
    + exists ((([EvOpen CACHE_VERSION] ++ fetches)
               ++ map (fun e => EvPut CACHE_VERSION (fst e) (snd e)) entries)
              ++ [EvSettled true]).
      cbv [log]. split; [reflexivity |].
      repeat match goal with |- _ /\ _ => split end.
      * rewrite !filter_app. unfold fetches. rewrite Hnet, Hput. reflexivity.
      * rewrite !in_app_iff. left. left. left. now left.
      * intros req Hreq. rewrite !in_app_iff. left. left. right.
        now apply Hfetched.
      * reflexivity.
      * exists true. rewrite !in_app_iff. right. now left.
    + exists (([EvOpen CACHE_VERSION] ++ fetches) ++ [EvSettled false]).
      cbv [log]. split; [reflexivity |].
      repeat match goal with |- _ /\ _ => split end.
      * rewrite !filter_app. unfold fetches. rewrite Hnet. reflexivity.
      * rewrite !in_app_iff. left. left. now left.
      * intros req Hreq. rewrite !in_app_iff. left. right.
        now apply Hfetched.
      * reflexivity.
      * exists false. rewrite !in_app_iff. right. now left.
  - rewrite handle_activate_run.
    exists (([EvKeys (caches_keys cs)] ++ map EvDelete (stale cs))
            ++ [EvSettled true]).
    cbv [log]. split; [reflexivity |].
    repeat match goal with |- _ /\ _ => split end.
    + rewrite !filter_app, Hdel. reflexivity.
    + rewrite !in_app_iff. left. left. now left.
    + intros name Hn. rewrite !in_app_iff. left. right. now apply in_map.
    + rewrite !in_app_iff. right. now left.
Qed.

(** ** Generations after activation *)

Lemma kept_generation (cs : CacheStorage) :
  generation (filter (fun g => fst g =? CACHE_VERSION) cs) CACHE_VERSION
  = generation cs CACHE_VERSION.
Proof.
  induction cs as [| [n c] cs IH]; [reflexivity |].
  cbn [filter fst generation].
  destruct (n =? CACHE_VERSION) eqn:E.
  - cbn [generation]. rewrite String.eqb_sym, E. reflexivity.
  - rewrite String.eqb_sym, E. exact IH.
Qed.

Lemma kept_keys (cs : CacheStorage) (name : string) :
  In name (caches_keys (filter (fun g => fst g =? CACHE_VERSION) cs))
  <-> In name (caches_keys cs) /\ name = CACHE_VERSION.
Proof.
  unfold caches_keys. rewrite !in_map_iff. split.
  - intros [g [<- Hg]]. apply filter_In in Hg. destruct Hg as [Hg E].
    apply String.eqb_eq in E. split; [exists g; auto | exact E].
  - intros [[g [<- Hg]] E]. exists g. split; [reflexivity |].
    apply filter_In. split; [exact Hg | now apply String.eqb_eq].
Qed.

Lemma kept_match_miss (cs : CacheStorage) (key : Request) :
  (forall c, In (CACHE_VERSION, c) cs -> cache_match c key = None) ->
  caches_match (filter (fun g => fst g =? CACHE_VERSION) cs) key = None.
Proof.
  induction cs as [| [n c] cs IH]; intros H; [reflexivity |].
  cbn [filter fst]. destruct (n =? CACHE_VERSION) eqn:E.
  - apply String.eqb_eq in E. subst n. cbn [caches_match].
    rewrite (H c) by now left.
    apply IH. intros c' Hc'. apply H. now right.
  - apply IH. intros c' Hc'. apply H. now right.
Qed.

Lemma deletions_of_log (pre : list Event) (names : list string)
    (post : list Event) :
  filter is_delete pre = [] -> filter is_delete post = [] ->
  filter is_delete ((pre ++ map EvDelete names) ++ post) = map EvDelete names.
Proof.
  intros Hpre Hpost. rewrite !filter_app, Hpre, Hpost, app_nil_r. simpl.
  induction names as [| n names IH]; simpl; [| rewrite IH]; reflexivity.
Qed.

(** C9: the activate transition deletes exactly the generations whose
    identifier differs from the current version; afterwards only the
    current identifier can be enumerated, the current generation's store
    is what it was, and a key that the current generation does not hold
    is not found. *)
Theorem activate_deletes_exactly_the_stale_generations
    (self_location : URL) (network : Request -> option Response)
    (cs : CacheStorage) :
  let w := handle_activate self_location network cs in
  filter is_delete (log w)
  = map EvDelete (filter (fun key => negb (key =? CACHE_VERSION)) (caches_keys cs))
  /\ caches w = filter (fun g => fst g =? CACHE_VERSION) cs
  /\ (forall name, In name (caches_keys (caches w))
                   <-> In name (caches_keys cs) /\ name = CACHE_VERSION)
  /\ generation (caches w) CACHE_VERSION = generation cs CACHE_VERSION
  /\ (forall key,
        (forall c, In (CACHE_VERSION, c) cs -> cache_match c key = None) ->
        caches_match (caches w) key = None)
  /\ queue w = [].
Proof.
  intros w. subst w. rewrite handle_activate_run. cbv [caches log queue].
  repeat match goal with |- _ /\ _ => split end.
  - now apply deletions_of_log.
  - reflexivity.
  - intros name. apply kept_keys.
  - apply kept_generation.
  - apply kept_match_miss.
  - reflexivity.
Qed.

(** A version bump: the storage holds the superseded generation with a
    page of its own, and the current one with the root document. *)
Lemma activate_witness :
  let cs := [("garden-battery-v0", [(Sample.page "/old", Sample.html "old")]);
             (CACHE_VERSION, [(Sample.page "/", Sample.html "shell")])] in
  let w := handle_activate Sample.app Sample.offline cs in
  caches_match cs (Sample.page "/old") = Some (Sample.html "old")
  /\ caches_match (caches w) (Sample.page "/old") = None
  /\ caches_keys (caches w) = [CACHE_VERSION].
Proof.
  intros cs w.
  destruct (activate_deletes_exactly_the_stale_generations
              Sample.app Sample.offline cs)
    as [_ [Hc [_ [_ [Hmiss _]]]]].
  split; [reflexivity | split].
  - apply Hmiss. intros c [Hin | [Hin | []]].
    + vm_compute in Hin. discriminate Hin.
    + injection Hin as <-. reflexivity.
  - fold w in Hc. rewrite Hc. reflexivity.
Defined.

(** ** Lookups after a write *)

Lemma cache_put_other (c : Cache) (k key : Request) (v : Response) :
  key <> k ->
  cache_match (cache_put c k v) key = cache_match c key.
Proof.
  intros Hne.
  assert (Hk : Request_eqb key k = false).
  { apply not_true_is_false. intros H. now apply Request_eqb_eq in H. }
  induction c as [| [k0 v0] c IH]; simpl.
  - now rewrite Hk.
  - destruct (Request_eqb k k0) eqn:E; simpl.
    + apply Request_eqb_eq in E. subst k0. now rewrite Hk.
    + now rewrite IH.
Qed.

Lemma caches_match_none_iff (cs : CacheStorage) (key : Request) :
  caches_match cs key = None
  <-> forall name c, In (name, c) cs -> cache_match c key = None.
Proof.
  induction cs as [| [n c] cs IH]; simpl.
  - split; [intros _ ? ? [] | reflexivity].
  - destruct (cache_match c key) as [v |] eqn:E.
    + split; [discriminate |]. intros H.
      specialize (H n c (or_introl eq_refl)). congruence.
    + rewrite IH. split.
      * intros H name c' [Heq | Hin]; [now injection Heq as <- <- | eauto].
      * intros H name c' Hin. eauto.
Qed.

Lemma caches_match_open (cs : CacheStorage) (name : string) (key : Request) :
  caches_match (caches_open cs name) key = caches_match cs key.
Proof.
  unfold caches_open. destruct (caches_has cs name); [reflexivity |].
  induction cs as [| [n c] cs IH]; simpl; [reflexivity |].
  now rewrite IH.
Qed.

Lemma storage_put_other (cs : CacheStorage) (name : string)
    (k key : Request) (v : Response) :
  key <> k ->
  caches_match (storage_put cs name k v) key = caches_match cs key.
Proof.
  intros Hne. induction cs as [| [n c] cs IH]; simpl; [reflexivity |].
  destruct (name =? n); simpl.
  - now rewrite cache_put_other.
  - now rewrite IH.
Qed.

Lemma storage_put_keys (cs : CacheStorage) (name : string)
    (k : Request) (v : Response) :
  caches_keys (storage_put cs name k v) = caches_keys cs.
Proof.
  unfold caches_keys.
  induction cs as [| [n c] cs IH]; simpl; [reflexivity |].
  destruct (name =? n); simpl; [reflexivity | now rewrite IH].
Qed.

Lemma caches_open_has (cs : CacheStorage) (name : string) :
  caches_has (caches_open cs name) name = true.
Proof.
  apply caches_has_generation. apply caches_open_generation.
Qed.


(** The first generation called [name] is the first one to hold [k]
    once [k] is written into it, when no other generation holds [k]. *)
Lemma storage_put_found (cs : CacheStorage) (name : string)
    (k : Request) (v : Response) :
  caches_has cs name = true ->
  (forall n c, In (n, c) cs -> n <> name -> cache_match c k = None) ->
  caches_match (storage_put cs name k v) k = Some v.
Proof.
  unfold caches_has, caches_keys.
  induction cs as [| [n c] cs IH]; simpl; [discriminate |].
  intros Hhas Hothers. destruct (name =? n) eqn:E; simpl.
  - now rewrite cache_put_match.
  - rewrite (Hothers n c (or_introl eq_refl)).
    + apply IH; [exact Hhas | eauto].
    + intros ->. now rewrite String.eqb_refl in E.
Qed.

Lemma open_put_found (cs : CacheStorage) (name : string)
    (k : Request) (v : Response) :
  (forall n c, In (n, c) cs -> n <> name -> cache_match c k = None) ->
  caches_match (storage_put (caches_open cs name) name k v) k = Some v.
Proof.
  intros Hothers. apply storage_put_found; [apply caches_open_has |].
  intros n c Hin Hn. unfold caches_open in Hin.
  destruct (caches_has cs name); [eauto |].
  apply in_app_iff in Hin. destruct Hin as [Hin | [Heq | []]]; [eauto |].
  injection Heq as <- <-. reflexivity.
Qed.



(** ** More runs of the fetch listener *)

Lemma same_origin_hit_run
    (self_location : URL) (network : Request -> option Response)
    (request : Request) (cs : CacheStorage) (stored : Response) :
  method request = "GET" ->
  origin (url request) = origin self_location ->
  caches_match cs request = Some stored ->
  handle_fetch self_location network request cs
  = {| caches := cs;
       log := [EvRespondWith; EvLookup request (Some stored);
               EvReply (Some stored)];
       queue := [];
       reply := Replied (Some stored) |}.
Proof.
  intros Hm Ho Hc. unfold handle_fetch.
  rewrite fetch_listener_same_origin by assumption.
  run_worker. rewrite Hc. run_worker. reflexivity.
Qed.

Lemma same_origin_refill_run
    (self_location : URL) (network : Request -> option Response)
    (request : Request) (cs : CacheStorage) (response : Response) :
  method request = "GET" ->
  origin (url request) = origin self_location ->
  caches_match cs request = None ->
  network request = Some response ->
  handle_fetch self_location network request cs
  = {| caches := if put_accepts response
                 then storage_put (caches_open cs CACHE_VERSION) CACHE_VERSION
                        request (clone response)
                 else caches_open cs CACHE_VERSION;
       log := [EvRespondWith; EvLookup request None;
               EvNetwork request (Some response); EvReply (Some response);
               EvOpen CACHE_VERSION]
              ++ put_log request (clone response);
       queue := [];
       reply := Replied (Some response) |}.
Proof.
  intros Hm Ho Hc Hn. unfold handle_fetch.
  rewrite fetch_listener_same_origin by assumption.
  run_worker. rewrite Hc. run_worker. rewrite Hn. run_worker.
  unfold put_log. rewrite put_accepts_clone.
  destruct (put_accepts response); reflexivity.
Qed.

Lemma remote_failure_run
    (self_location : URL) (network : Request -> option Response)
    (request : Request) (cs : CacheStorage) :
  method request = "GET" ->
  origin (url request) <> origin self_location ->
  is_allow_listed (url request) = true ->
  network request = None ->
  handle_fetch self_location network request cs
  = {| caches := cs;
       log := [EvRespondWith; EvNetwork request None;
               EvLookup request (caches_match cs request);
               EvReply (caches_match cs request)];
       queue := [];
       reply := Replied (caches_match cs request) |}.
Proof.
  intros Hm Ho Ha Hn. unfold handle_fetch.
  rewrite fetch_listener_remote by assumption.
  run_worker. rewrite Hn. run_worker. reflexivity.
Qed.

(** The storage a fetch event leaves: as it was, or with the current
    generation opened and, when the cache stores the network's response,
    that response written under the request. *)
Lemma handle_fetch_storage
    (self_location : URL) (network : Request -> option Response)
    (request : Request) (cs : CacheStorage) :
  caches (handle_fetch self_location network request cs) = cs
  \/ caches (handle_fetch self_location network request cs)
     = caches_open cs CACHE_VERSION
  \/ exists response,
       network request = Some response
       /\ caches (handle_fetch self_location network request cs)
          = storage_put (caches_open cs CACHE_VERSION) CACHE_VERSION
              request (clone response).
Proof.
  unfold handle_fetch, fetch_listener, exec.
  destruct (negb (method request =? "GET")); [now left |].
  destruct (origin (url request) =? origin self_location).
  - run_worker. destruct (caches_match cs request) as [stored |].
    + run_worker. now left.
    + run_worker. destruct (network request) as [response |] eqn:Hn.
      * run_worker. destruct (put_accepts (clone response)).
        -- right. right. now exists response.
        -- right. now left.
      * run_worker. now left.
  - destruct ((hostname (url request) =? "batteryapi.liese.space")
              || (hostname (url request) =? "thingspeak.com")); [| now left].
    run_worker. destruct (network request) as [response |] eqn:Hn.
    + run_worker. destruct (put_accepts (clone response)).
      * right. right. now exists response.
      * right. now left.
    + run_worker. now left.
Qed.

(** X1: a same-origin GET that misses the cache is fetched; when the
    network answers, the answer is the reply.  Unless it has status 206
    or a [Vary] header naming [*], it is written into the current
    generation under the request and the storage then finds it; if it
    has, nothing is written and the request still misses. *)
Theorem same_origin_miss_is_refilled
    (self_location : URL) (network : Request -> option Response)
    (request : Request) (cs : CacheStorage) (response : Response) :
  method request = "GET" ->
  origin (url request) = origin self_location ->
  caches_match cs request = None ->
  network request = Some response ->
  let w := handle_fetch self_location network request cs in
  reply w = Replied (Some response)
  /\ page_result network request w = Served response
  /\ lookups (log w) = [request]
  /\ network_calls (log w) = [EvNetwork request (Some response)]
  /\ (put_accepts response = true ->
      cache_writes (log w) = [EvPut CACHE_VERSION request (clone response)]
      /\ (exists c, generation (caches w) CACHE_VERSION = Some c
                    /\ cache_match c request = Some response)
      /\ caches_match (caches w) request = Some response)
  /\ (put_accepts response = false ->
      cache_writes (log w) = []
      /\ caches w = caches_open cs CACHE_VERSION
      /\ caches_match (caches w) request = None).
Proof.
  intros Hm Ho Hc Hn w. subst w.
  rewrite (same_origin_refill_run _ _ _ _ _ Hm Ho Hc Hn).
  cbv [page_result reply log caches queue]. unfold put_log.
  rewrite put_accepts_clone.
  repeat match goal with |- _ /\ _ => split end; try reflexivity.
  - now destruct (put_accepts response).
  - now destruct (put_accepts response).
  - intros Hp. rewrite Hp. repeat split.
    + destruct (open_put_stored cs CACHE_VERSION request (clone response))
        as [c [Hg Hf]].
      exists c. split; [exact Hg |]. now rewrite Hf, clone_eq.
    + rewrite open_put_found, clone_eq; [reflexivity |].
      intros n c Hin _. revert n c Hin. now apply caches_match_none_iff.
  - intros Hp. rewrite Hp. repeat split.
    now rewrite caches_match_open.
Qed.

Lemma same_origin_miss_is_refilled_witness :
  let cs := [(CACHE_VERSION, [(Sample.page "/", Sample.html "shell")])] in
  let w := handle_fetch Sample.app (Sample.serving (Sample.html "settings"))
             (Sample.page "/settings") cs in
  let w' := handle_fetch Sample.app (Sample.serving Sample.partial)
              (Sample.page "/settings") cs in
  (reply w = Replied (Some (Sample.html "settings"))
   /\ caches_match (caches w) (Sample.page "/settings")
      = Some (Sample.html "settings"))
  /\ (reply w' = Replied (Some Sample.partial)
      /\ caches_match (caches w') (Sample.page "/settings") = None).
Proof.
  intros cs w w'. split.
  - destruct (same_origin_miss_is_refilled
                Sample.app (Sample.serving (Sample.html "settings"))
                (Sample.page "/settings") cs (Sample.html "settings"))
      as [Hr [_ [_ [_ [Hyes _]]]]]; try reflexivity.
    destruct Hyes as [_ [_ Hf]]; [reflexivity |].
    split; [exact Hr | exact Hf].
  - destruct (same_origin_miss_is_refilled
                Sample.app (Sample.serving Sample.partial)
                (Sample.page "/settings") cs Sample.partial)
      as [Hr [_ [_ [_ [_ Hno]]]]]; try reflexivity.
    destruct Hno as [_ [_ Hf]]; [reflexivity |].
    split; [exact Hr | exact Hf].
Defined.

(** X2: once a same-origin miss was refilled with a response the cache
    stores (not status 206, no [Vary] header naming [*]), the same
    request is served from the cache with that response, whatever the
    network does then, without a network call and without touching the
    storage.  After a response the cache refuses, the same request
    misses again and goes to the network. *)
Theorem refilled_request_is_served_from_cache
    (self_location : URL) (network later : Request -> option Response)
    (request : Request) (cs : CacheStorage) (response : Response) :
  method request = "GET" ->
  origin (url request) = origin self_location ->
  caches_match cs request = None ->
  network request = Some response ->
  let w1 := handle_fetch self_location network request cs in
  let w2 := handle_fetch self_location later request (caches w1) in
  (put_accepts response = true ->
   reply w2 = Replied (Some response)
   /\ network_calls (log w2) = []
   /\ cache_writes (log w2) = []
   /\ caches w2 = caches w1)
  /\ (put_accepts response = false ->
      network_calls (log w2) = [EvNetwork request (later request)]).
Proof.
  intros Hm Ho Hc Hn w1 w2. subst w2 w1.
  rewrite (same_origin_refill_run _ _ _ _ _ Hm Ho Hc Hn). cbv [caches].
  split; intros Hp; rewrite Hp.
  - assert (Hfound : caches_match
                       (storage_put (caches_open cs CACHE_VERSION)
                          CACHE_VERSION request (clone response)) request
                     = Some response).
    { rewrite open_put_found, clone_eq; [reflexivity |].
      intros n c Hin _. revert n c Hin. now apply caches_match_none_iff. }
    rewrite (same_origin_hit_run _ later _ _ _ Hm Ho Hfound).
    repeat split.
  - assert (Hmiss : caches_match (caches_open cs CACHE_VERSION) request = None)
      by now rewrite caches_match_open.
    destruct (later request) as [again |] eqn:Hl.
    + rewrite (same_origin_refill_run _ later _ _ _ Hm Ho Hmiss Hl).
      cbv [log]. unfold put_log. now destruct (put_accepts (clone again)).
    + unfold handle_fetch.
      rewrite fetch_listener_same_origin by assumption.
      run_worker. rewrite Hmiss. run_worker. rewrite Hl. run_worker.
      reflexivity.
Qed.

Lemma refilled_request_witness :
  let w1 := handle_fetch Sample.app (Sample.serving (Sample.html "settings"))
              (Sample.page "/settings") [] in
  let w2 := handle_fetch Sample.app Sample.offline
              (Sample.page "/settings") (caches w1) in
  reply w2 = Replied (Some (Sample.html "settings"))
  /\ network_calls (log w2) = [].
Proof.
  intros w1 w2.
  destruct (refilled_request_is_served_from_cache
              Sample.app (Sample.serving (Sample.html "settings")) Sample.offline
              (Sample.page "/settings") [] (Sample.html "settings"))
    as [Hyes _]; try reflexivity.
  destruct Hyes as [Hr [Hn _]]; [reflexivity |].
  split; [exact Hr | exact Hn].
Defined.

(** X3: after a successful GET to an allow-listed remote host whose
    response the cache stores (not status 206, no [Vary] header naming
    [*]), the same request made while the network is down is answered
    with the response of the successful call, provided no generation
    other than the current one holds an entry for it. *)
Theorem remote_snapshot_is_served_during_outage
    (self_location : URL) (network later : Request -> option Response)
    (request : Request) (cs : CacheStorage) (response : Response) :
  method request = "GET" ->
  origin (url request) <> origin self_location ->
  hostname (url request) = "batteryapi.liese.space"
  \/ hostname (url request) = "thingspeak.com" ->
  network request = Some response ->
  put_accepts response = true ->
  later request = None ->
  (forall name c, In (name, c) cs -> name <> CACHE_VERSION ->
                  cache_match c request = None) ->
  let w1 := handle_fetch self_location network request cs in
  let w2 := handle_fetch self_location later request (caches w1) in
  reply w2 = Replied (Some response)
  /\ page_result later request w2 = Served response
  /\ caches w2 = caches w1.
Proof.
  intros Hm Ho Ha Hn Hp Hl Hothers w1 w2.
  apply allow_listed_iff in Ha.
  subst w2 w1.
  rewrite (remote_success_run _ _ _ _ _ Hm Ho Ha Hn). cbv [caches].
  rewrite Hp.
  rewrite (remote_failure_run _ _ _ _ Hm Ho Ha Hl).
  cbv [page_result reply caches].
  rewrite open_put_found, clone_eq by exact Hothers.
  repeat split.
Qed.

Lemma remote_snapshot_witness :
  let cs := [(CACHE_VERSION, [(Sample.stats, Sample.json "old")])] in
  let w1 := handle_fetch Sample.app (Sample.serving (Sample.json "new"))
              Sample.stats cs in
  let w2 := handle_fetch Sample.app Sample.offline Sample.stats (caches w1) in
  reply w2 = Replied (Some (Sample.json "new")).
Proof.
  intros cs w1 w2.
  destruct (remote_snapshot_is_served_during_outage
              Sample.app (Sample.serving (Sample.json "new")) Sample.offline
              Sample.stats cs (Sample.json "new"))
    as [Hr _].
  - reflexivity.
  - vm_compute. discriminate.
  - left. reflexivity.
  - reflexivity.
  - reflexivity.
  - reflexivity.
  - intros name c [Hin | []] Hname. injection Hin as <- <-.
    now contradiction Hname.
  - exact Hr.
Defined.



(** X5: whatever the request and however it is handled, a fetch event
    leaves every other key's entry as it was and removes no
    generation. *)
Theorem fetch_leaves_other_entries_alone
    (self_location : URL) (network : Request -> option Response)
    (request : Request) (cs : CacheStorage) (key : Request) :
  key <> request ->
  let w := handle_fetch self_location network request cs in
  caches_match (caches w) key = caches_match cs key
  /\ (forall name, In name (caches_keys cs) -> In name (caches_keys (caches w))).
Proof.
  intros Hne w. subst w.
  assert (Hkeys : forall name, In name (caches_keys cs) ->
                     In name (caches_keys (caches_open cs CACHE_VERSION))).
  { intros name Hin. unfold caches_open.
    destruct (caches_has cs CACHE_VERSION); [exact Hin |].
    unfold caches_keys. rewrite map_app. apply in_app_iff. now left. }
  destruct (handle_fetch_storage self_location network request cs)
    as [-> | [-> | [response [_ ->]]]].
  - split; auto.
  - split; [apply caches_match_open | exact Hkeys].
  - split.
    + now rewrite storage_put_other, caches_match_open.
    + intros name Hin. rewrite storage_put_keys. now apply Hkeys.
Qed.

Lemma fetch_leaves_other_entries_witness :
  let cs := [("garden-battery-v0", [(Sample.page "/", Sample.html "shell")])] in
  let w := handle_fetch Sample.app (Sample.serving (Sample.json "live"))
             Sample.stats cs in
  caches_match (caches w) (Sample.page "/") = Some (Sample.html "shell")
  /\ In "garden-battery-v0" (caches_keys (caches w)).
Proof.
  intros cs w.
  destruct (fetch_leaves_other_entries_alone
              Sample.app (Sample.serving (Sample.json "live"))
              Sample.stats cs (Sample.page "/"))
    as [Hm Hk].
  - vm_compute. discriminate.
  - split; [exact Hm | apply Hk; now left].
Defined.

(** ** More about install and activate *)

Lemma Request_eq_dec (a b : Request) : {a = b} + {a <> b}.
Proof.
  destruct (Request_eqb a b) eqn:E.
  - left. now apply Request_eqb_eq.
  - right. intros H. apply Request_eqb_eq in H. congruence.
Qed.

Lemma batch_all_ok (fetched : list (Request * option Response)) :
  (forall req r, In (req, r) fetched ->
     exists v, r = Some v /\ ok v = true /\ put_accepts v = true) ->
  exists entries, batch fetched = Some entries.
Proof.
  induction fetched as [| [req r] rest IH]; intros H; simpl.
  - now exists [].
  - destruct (H req r (or_introl eq_refl)) as [v [-> [Hok Hp]]].
    rewrite Hok, Hp. simpl.
    destruct IH as [entries ->]; [intros; eapply H; right; eauto |].
    now eexists.
Qed.

Lemma batch_some_bad (fetched : list (Request * option Response))
    (req : Request) (r : option Response) :
  In (req, r) fetched ->
  r = None \/ (exists v, r = Some v /\ ok v = false) ->
  batch fetched = None.
Proof.
  intros Hin Hbad.
  destruct (batch fetched) as [entries |] eqn:Hb; [| reflexivity].
  exfalso. revert entries Hb.
  induction fetched as [| [req0 r0] rest IH]; [destruct Hin |].
  intros entries Hb. simpl in Hb.
  destruct r0 as [v0 |]; [| discriminate].
  destruct (ok v0) eqn:Hok; [| discriminate].
  destruct (put_accepts v0); [| discriminate]. simpl in Hb.
  destruct (batch rest) as [es |] eqn:Hrest; [| discriminate].
  destruct Hin as [Heq | Hin].
  - injection Heq as <- <-.
    destruct Hbad as [Hnone | [v [Hv Hno]]]; [discriminate |].
    injection Hv as <-. congruence.
  - now apply (IH Hin es).
Qed.

Lemma batch_some_refused (fetched : list (Request * option Response))
    (req : Request) (v : Response) :
  In (req, Some v) fetched -> put_accepts v = false ->
  batch fetched = None.
Proof.
  intros Hin Hp.
  destruct (batch fetched) as [entries |] eqn:Hb; [| reflexivity].
  exfalso. revert entries Hb.
  induction fetched as [| [req0 r0] rest IH]; [destruct Hin |].
  intros entries Hb. simpl in Hb.
  destruct r0 as [v0 |]; [| discriminate].
  destruct (ok v0); [| discriminate].
  destruct (put_accepts v0) eqn:Hp0; [| discriminate]. simpl in Hb.
  destruct (batch rest) as [es |] eqn:Hrest; [| discriminate].
  destruct Hin as [Heq | Hin].
  - injection Heq as <- <-. congruence.
  - now apply (IH Hin es).
Qed.

Lemma no_vary_is_accepted (v : Response) :
  status v <> 206%Z -> vary_fields v = [] -> put_accepts v = true.
Proof.
  intros Hs Hv. unfold put_accepts, vary_star. rewrite Hv. simpl.
  apply Z.eqb_neq in Hs. now rewrite Hs.
Qed.

(** What [cache.addAll]'s writes leave in the generation: under each
    written key the response written for it, other keys as before. *)
Lemma put_entries_lookup (f : Request -> option Response) (name : string)
    (entries : list (Request * Response)) :
  (forall k v, In (k, v) entries -> f k = Some v) ->
  forall (cs : CacheStorage) (c0 : Cache),
    generation cs name = Some c0 ->
    exists c,
      generation (put_entries name entries cs) name = Some c
      /\ (forall k, In k (map fst entries) -> cache_match c k = f k)
      /\ (forall k, ~ In k (map fst entries) ->
                    cache_match c k = cache_match c0 k).
Proof.
  induction entries as [| [k1 v1] rest IH]; intros Hf cs c0 Hg.
  - exists c0. simpl. repeat split; [exact Hg | intros k []].
  - destruct (IH (fun k v H => Hf k v (or_intror H))
                 (storage_put cs name k1 v1) (cache_put c0 k1 v1)
                 (storage_put_generation _ _ _ _ _ Hg))
      as [c [Hgc [Hin Hout]]].
    exists c. split; [exact Hgc | split].
    + intros k Hk. destruct (in_dec Request_eq_dec k (map fst rest)) as [Hr | Hr].
      * now apply Hin.
      * rewrite (Hout k Hr). destruct Hk as [Hk | Hk]; [| contradiction].
        simpl in Hk. subst k1.
        rewrite cache_put_match. symmetry. apply Hf. now left.
    + intros k Hk. rewrite Hout by (intros H; apply Hk; now right).
      apply cache_put_other. intros ->. apply Hk. now left.
Qed.

Lemma put_entries_other_generation (name : string)
    (entries : list (Request * Response)) (other : string) :
  other <> name ->
  forall cs, generation (put_entries name entries cs) other = generation cs other.
Proof.
  intros Hne. induction entries as [| [k v] rest IH]; intros cs.
  - reflexivity.
  - change (put_entries name ((k, v) :: rest) cs)
      with (put_entries name rest (storage_put cs name k v)).
    rewrite IH. clear IH.
    induction cs as [| [n c] cs IHcs]; simpl; [reflexivity |].
    destruct (name =? n) eqn:E; simpl.
    + apply String.eqb_eq in E. subst n.
      apply String.eqb_neq in Hne. now rewrite Hne.
    + destruct (other =? n); [reflexivity | exact IHcs].
Qed.

Lemma caches_open_other_generation (cs : CacheStorage) (name other : string) :
  other <> name ->
  generation (caches_open cs name) other = generation cs other.
Proof.
  intros Hne. unfold caches_open. destruct (caches_has cs name); [reflexivity |].
  induction cs as [| [n c] cs IH]; simpl.
  - apply String.eqb_neq in Hne. now rewrite Hne.
  - destruct (other =? n); [reflexivity | exact IH].
Qed.

Lemma kept_match_hit (cs : CacheStorage) (c : Cache)
    (key : Request) (v : Response) :
  generation cs CACHE_VERSION = Some c ->
  cache_match c key = Some v ->
  caches_match (filter (fun g => fst g =? CACHE_VERSION) cs) key = Some v.
Proof.
  intros Hg Hc. induction cs as [| [n c0] cs IH]; [discriminate |].
  cbn [generation] in Hg. cbn [filter fst].
  rewrite String.eqb_sym in Hg.
  destruct (n =? CACHE_VERSION).
  - injection Hg as ->. cbn [caches_match]. now rewrite Hc.
  - now apply IH.
Qed.

Lemma kept_twice (cs : CacheStorage) :
  filter (fun g => fst g =? CACHE_VERSION)
    (filter (fun g => fst g =? CACHE_VERSION) cs)
  = filter (fun g : string * Cache => fst g =? CACHE_VERSION) cs.
Proof.
  rewrite filter_filter_and. apply filter_ext. intros g.
  now destruct (fst g =? CACHE_VERSION).
Qed.

Lemma kept_has_no_stale (cs : CacheStorage) :
  stale (filter (fun g => fst g =? CACHE_VERSION) cs) = [].
Proof.
  unfold stale, caches_keys.
  induction cs as [| [n c] cs IH]; [reflexivity |].
  cbn [filter fst]. destruct (n =? CACHE_VERSION) eqn:E; [| exact IH].
  cbn [map filter fst]. rewrite E. exact IH.
Qed.

Lemma kept_nothing (cs : CacheStorage) :
  caches_has cs CACHE_VERSION = false ->
  filter (fun g => fst g =? CACHE_VERSION) cs = [].
Proof.
  unfold caches_has, caches_keys.
  induction cs as [| [n c] cs IH]; [reflexivity |].
  cbn [map existsb fst filter]. rewrite String.eqb_sym.
  destruct (n =? CACHE_VERSION); [discriminate | exact IH].
Qed.

Lemma kept_is_current (cs : CacheStorage) (key : Request) :
  NoDup (caches_keys cs) ->
  caches_match (filter (fun g => fst g =? CACHE_VERSION) cs) key
  = current_match cs key.
Proof.
  unfold current_match.
  induction cs as [| [n c] cs IH]; intros Hnd; [reflexivity |].
  cbn [caches_keys map fst] in Hnd. inversion Hnd as [| ? ? Hnotin Hnd']; subst.
  cbn [filter fst generation]. rewrite (String.eqb_sym CACHE_VERSION n).
  destruct (n =? CACHE_VERSION) eqn:E.
  - apply String.eqb_eq in E. subst n.
    rewrite kept_nothing.
    + cbn [caches_match]. now destruct (cache_match c key).
    + apply not_true_is_false. intros H. apply Hnotin.
      unfold caches_has in H. apply existsb_exists in H.
      destruct H as [x [Hx Hx']]. apply String.eqb_eq in Hx'. now subst x.
  - now apply IH.
Qed.

Lemma shell_fetch_answer
    (self_location : URL) (network : Request -> option Response)
    (k : Request) (r : option Response) :
  In (k, r) (shell_fetches self_location network) ->
  r = network k /\ In k (map (resolve self_location) APP_SHELL).
Proof.
  unfold shell_fetches. intros H. apply in_map_iff in H.
  destruct H as [req [Heq Hin]]. injection Heq as <- <-. now split.
Qed.

(** X6: when every manifest resource is fetched with an ok response
    that a cache stores (not status 206, no [Vary] header naming [*]),
    install settles fulfilled and the current generation then holds,
    under each manifest resource, the response the network gave for it;
    the other generations are as they were.  One manifest response that
    a cache refuses makes install settle rejected with nothing
    written. *)
Theorem install_success_populates_the_shell
    (self_location : URL) (network : Request -> option Response)
    (cs : CacheStorage) :
  let w := handle_install self_location network cs in
  ((forall path, In path APP_SHELL ->
      exists v, network (resolve self_location path) = Some v
                /\ ok v = true /\ put_accepts v = true) ->
   In (EvSettled true) (log w)
   /\ (exists c, generation (caches w) CACHE_VERSION = Some c
                 /\ forall path, In path APP_SHELL ->
                      cache_match c (resolve self_location path)
                      = network (resolve self_location path))
   /\ (forall name, name <> CACHE_VERSION ->
         generation (caches w) name = generation cs name))
  /\ (forall path v,
        In path APP_SHELL ->
        network (resolve self_location path) = Some v ->
        put_accepts v = false ->
        In (EvSettled false) (log w)
        /\ cache_writes (log w) = []
        /\ caches w = caches_open cs CACHE_VERSION).
Proof.
  intros w. subst w. split.
  - intros Hall. rewrite handle_install_run.
    destruct (batch_all_ok (shell_fetches self_location network)) as [entries Hb].
    { intros req r Hin. apply shell_fetch_answer in Hin. destruct Hin as [-> Hin].
      apply in_map_iff in Hin. destruct Hin as [path [<- Hpath]]. auto. }
    rewrite Hb. cbv [log caches].
    destruct (batch_entries _ _ Hb) as [Hkeys Hvals].
    destruct (caches_open_generation cs CACHE_VERSION) as [c0 Hc0].
    destruct (put_entries_lookup network CACHE_VERSION entries) with
      (cs := caches_open cs CACHE_VERSION) (c0 := c0) as [c [Hg [Hin _]]].
    { intros k v Hkv. destruct (Hvals k v Hkv) as [Hf _].
      apply shell_fetch_answer in Hf. now destruct Hf as [<- _]. }
    { exact Hc0. }
    split; [| split].
    + apply in_app_iff. right. now left.
    + exists c. split; [exact Hg |]. intros path Hpath. apply Hin.
      rewrite Hkeys. unfold shell_fetches. rewrite map_map. cbn [fst].
      rewrite map_id. now apply in_map.
    + intros name Hne.
      now rewrite put_entries_other_generation, caches_open_other_generation.
  - intros path v Hpath Hn Hp. rewrite handle_install_run.
    rewrite (batch_some_refused (shell_fetches self_location network)
               (resolve self_location path) v).
    + cbv [log caches]. split; [| split; [| reflexivity]].
      * apply in_app_iff. right. now left.
      * unfold cache_writes, install_prefix. rewrite !filter_app.
        assert (Hnet : forall fs : list (Request * option Response),
                   filter is_write
                     (map (fun f => EvNetwork (fst f) (snd f)) fs) = []).
        { induction fs as [| f fs IH]; simpl; auto. }
        now rewrite Hnet.
    + unfold shell_fetches. apply in_map_iff.
      exists (resolve self_location path). split; [now rewrite Hn |].
      now apply in_map.
    + exact Hp.
Qed.

Lemma install_success_witness :
  let w := handle_install Sample.app (Sample.serving (Sample.html "shell"))
             [("garden-battery-v0", [(Sample.page "/", Sample.html "old")])] in
  let w' := handle_install Sample.app (Sample.serving Sample.partial) [] in
  (In (EvSettled true) (log w)
   /\ generation (caches w) "garden-battery-v0"
      = Some [(Sample.page "/", Sample.html "old")])
  /\ (In (EvSettled false) (log w') /\ caches w' = [(CACHE_VERSION, [])]).
Proof.
  intros w w'. split.
  - destruct (install_success_populates_the_shell
                Sample.app (Sample.serving (Sample.html "shell"))
                [("garden-battery-v0", [(Sample.page "/", Sample.html "old")])])
      as [Hyes _].
    destruct Hyes as [Hs [_ Ho]].
    + intros path _. exists (Sample.html "shell"). repeat split.
    + split; [exact Hs |]. fold w in Ho. rewrite Ho; [reflexivity |].
      vm_compute. discriminate.
  - destruct (install_success_populates_the_shell
                Sample.app (Sample.serving Sample.partial) [])
      as [_ Hno].
    destruct (Hno "/" Sample.partial) as [Hs [_ Hc]].
    + vm_compute. tauto.
    + reflexivity.
    + reflexivity.
    + split; [exact Hs | exact Hc].
Defined.

(** X7: when one manifest resource cannot be fetched, or is fetched with
    a response that is not ok, install settles rejected and writes no
    entry at all: at most the empty current generation was created, and
    every lookup finds what it found before. *)
Theorem install_failure_writes_nothing
    (self_location : URL) (network : Request -> option Response)
    (cs : CacheStorage) (path : string) :
  In path APP_SHELL ->
  network (resolve self_location path) = None
  \/ (exists v, network (resolve self_location path) = Some v /\ ok v = false) ->
  let w := handle_install self_location network cs in
  In (EvSettled false) (log w)
  /\ cache_writes (log w) = []
  /\ caches w = caches_open cs CACHE_VERSION
  /\ (forall key, caches_match (caches w) key = caches_match cs key).
Proof.
  intros Hpath Hbad w. subst w. rewrite handle_install_run.
  rewrite (batch_some_bad (shell_fetches self_location network)
             (resolve self_location path)
             (network (resolve self_location path))).
  - cbv [log caches]. split; [| split; [| split]].
    + apply in_app_iff. right. now left.
    + unfold cache_writes, install_prefix. rewrite !filter_app.
      assert (Hnet : forall fs : list (Request * option Response),
                 filter is_write (map (fun f => EvNetwork (fst f) (snd f)) fs) = []).
      { induction fs as [| f fs IH]; simpl; auto. }
      now rewrite Hnet.
    + reflexivity.
    + intros key. apply caches_match_open.
  - unfold shell_fetches. apply in_map_iff.
    exists (resolve self_location path). split; [reflexivity | now apply in_map].
  - exact Hbad.
Qed.

Lemma install_failure_witness :
  let net := fun req : Request =>
               if (pathname (url req) =? "/favicon.ico") then Some Sample.not_found
               else Some (Sample.html "shell") in
  let w := handle_install Sample.app net [] in
  In (EvSettled false) (log w) /\ caches w = [(CACHE_VERSION, [])].
Proof.
  intros net w.
  destruct (install_failure_writes_nothing Sample.app net [] "/favicon.ico")
    as [Hs [_ [Hc _]]].
  - vm_compute. tauto.
  - right. exists Sample.not_found. split; reflexivity.
  - split; [exact Hs | exact Hc].
Defined.

(** X8: install with every manifest resource fetched with an ok
    response that is not a 206 and has no [Vary] header, then activate,
    then a GET for the URL of a manifest resource: it is served from the
    cache with the response fetched at install, without a network call,
    whatever the storage held before and whatever the network does by
    then. *)
Theorem installed_shell_is_served_without_network
    (self_location : URL) (network later : Request -> option Response)
    (cs : CacheStorage) (path : string) :
  (forall p, In p APP_SHELL ->
     exists v, network (resolve self_location p) = Some v
               /\ ok v = true /\ status v <> 206%Z /\ vary_fields v = []) ->
  In path APP_SHELL ->
  let w1 := handle_install self_location network cs in
  let w2 := handle_activate self_location network (caches w1) in
  let w3 := handle_fetch self_location later (resolve self_location path)
              (caches w2) in
  reply w3 = Replied (network (resolve self_location path))
  /\ network (resolve self_location path) <> None
  /\ network_calls (log w3) = []
  /\ caches w3 = caches w2.
Proof.
  intros Hall Hpath w1 w2 w3.
  destruct (Hall path Hpath) as [v [Hv _]].
  destruct (batch_all_ok (shell_fetches self_location network)) as [entries Hb].
  { intros req r Hi. apply shell_fetch_answer in Hi. destruct Hi as [-> Hi].
    apply in_map_iff in Hi. destruct Hi as [p [<- Hp]].
    destruct (Hall p Hp) as [v0 [Hv0 [Hok [Hs Hvary]]]].
    exists v0. repeat split; auto. now apply no_vary_is_accepted. }
  destruct (batch_entries _ _ Hb) as [Hkeys Hvals].
  destruct (caches_open_generation cs CACHE_VERSION) as [c0 Hc0].
  destruct (put_entries_lookup network CACHE_VERSION entries) with
    (cs := caches_open cs CACHE_VERSION) (c0 := c0) as [c [Hg [Hin _]]].
  { intros k v0 Hkv. destruct (Hvals k v0 Hkv) as [Hf _].
    apply shell_fetch_answer in Hf. now destruct Hf as [<- _]. }
  { exact Hc0. }
  assert (Hfound : caches_match (caches w2) (resolve self_location path) = Some v).
  { subst w2. rewrite handle_activate_run. cbv [caches].
    apply kept_match_hit with (c := c).
    - subst w1. rewrite handle_install_run, Hb. exact Hg.
    - rewrite <- Hv. apply Hin. rewrite Hkeys.
      unfold shell_fetches. rewrite map_map. cbn [fst].
      rewrite map_id. now apply in_map. }
  subst w3.
  rewrite (same_origin_hit_run self_location later
             (resolve self_location path) (caches w2) v)
    by (reflexivity || exact Hfound).
  rewrite Hv. repeat split. discriminate.
Qed.

Lemma installed_shell_witness :
  let w1 := handle_install Sample.app (Sample.serving (Sample.html "shell")) [] in
  let w2 := handle_activate Sample.app Sample.offline (caches w1) in
  let w3 := handle_fetch Sample.app Sample.offline (Sample.page "/history")
              (caches w2) in
  reply w3 = Replied (Some (Sample.html "shell"))
  /\ network_calls (log w3) = [].
Proof.
  intros w1 w2 w3.
  destruct (installed_shell_is_served_without_network
              Sample.app (Sample.serving (Sample.html "shell")) Sample.offline
              [] "/history")
    as [Hr [_ [Hn _]]].
  - intros p _. exists (Sample.html "shell").
    repeat split. vm_compute. discriminate.
  - vm_compute. tauto.
  - split; [exact Hr | exact Hn].
Defined.

(** X9: activate is idempotent: run again on the storage it left, it
    deletes nothing and leaves the storage as it is. *)
Theorem activate_twice_changes_nothing
    (self_location : URL) (network : Request -> option Response)
    (cs : CacheStorage) :
  let w1 := handle_activate self_location network cs in
  let w2 := handle_activate self_location network (caches w1) in
  caches w2 = caches w1
  /\ filter is_delete (log w2) = []
  /\ In (EvSettled true) (log w2).
Proof.
  intros w1 w2. subst w2 w1. rewrite !handle_activate_run. cbv [caches log].
  split; [apply kept_twice | split].
  - rewrite deletions_of_log by reflexivity. now rewrite kept_has_no_stale.
  - apply in_app_iff. right. now left.
Qed.

(** X10: with generation names that are all different, as a cache
    storage has them, a storage-wide lookup after activate is a lookup
    in the current generation as it was before activate. *)
Theorem after_activate_lookups_hit_the_current_generation_only
    (self_location : URL) (network : Request -> option Response)
    (cs : CacheStorage) (key : Request) :
  NoDup (caches_keys cs) ->
  caches_match (caches (handle_activate self_location network cs)) key
  = current_match cs key.
Proof.
  intros Hnd. rewrite handle_activate_run. cbv [caches].
  now apply kept_is_current.
Qed.

Lemma after_activate_lookups_witness :
  let cs := [("garden-battery-v0", [(Sample.page "/", Sample.html "old shell")]);
             (CACHE_VERSION, [(Sample.page "/", Sample.html "shell")])] in
  caches_match cs (Sample.page "/") = Some (Sample.html "old shell")
  /\ caches_match (caches (handle_activate Sample.app Sample.offline cs))
       (Sample.page "/")
     = Some (Sample.html "shell").
Proof.
  intros cs. split; [reflexivity |].
  rewrite (after_activate_lookups_hit_the_current_generation_only
             Sample.app Sample.offline cs (Sample.page "/")).
  - reflexivity.
  - repeat constructor; simpl; intuition discriminate.
Defined.

(** X11: activate does not create the current generation: on a storage
    without one it deletes every generation and leaves the storage
    empty, so that every lookup misses. *)
Theorem activate_without_current_generation_empties_the_storage
    (self_location : URL) (network : Request -> option Response)
    (cs : CacheStorage) :
  caches_has cs CACHE_VERSION = false ->
  let w := handle_activate self_location network cs in
  caches w = []
  /\ filter is_delete (log w) = map EvDelete (caches_keys cs)
  /\ (forall key, caches_match (caches w) key = None).
Proof.
  intros Hno w. subst w. rewrite handle_activate_run. cbv [caches log].
  rewrite kept_nothing by exact Hno.
  split; [reflexivity | split; [| reflexivity]].
  rewrite deletions_of_log by reflexivity. f_equal.
  unfold stale. revert Hno. unfold caches_has, caches_keys.
  induction cs as [| [n c] cs IH]; [reflexivity |].
  cbn [map existsb fst filter]. rewrite String.eqb_sym.
  destruct (n =? CACHE_VERSION); [discriminate |].
  intros Hno. cbn [negb]. now rewrite IH.
Qed.

Lemma activate_without_current_generation_witness :
  let cs := [("garden-battery-v0", [(Sample.page "/", Sample.html "old shell")])] in
  caches (handle_activate Sample.app Sample.offline cs) = [].
Proof.
  intros cs.
  destruct (activate_without_current_generation_empties_the_storage
              Sample.app Sample.offline cs) as [Hc _].
  - reflexivity.
  - exact Hc.
Defined.

(** ** The live view *)

(** X12: a run of [refresh] that finds the view cancelled shows nothing
    and sets no timer; otherwise, once the fetch has settled, it ends by
    setting the next poll 5000 ms ahead, exactly once, whether the fetch
    or the parsing failed or not, and a failed fetch or an unparsable
    body shows no reading. *)
Theorem refresh_keeps_polling_unless_cancelled
    (debugRandomMode : bool) (random : BatteryStats) (fetched : PageResult)
    (json : Response -> option BatteryStats) :
  fetched <> Unsettled ->
  refresh debugRandomMode random fetched json true = []
  /\ exists shown,
       refresh debugRandomMode random fetched json false
       = shown ++ [SetTimeout 5000]
       /\ (shown = [] \/ exists data, shown = [SetStats data])
       /\ (debugRandomMode = false ->
           fetched = NetworkError
           \/ (exists response, fetched = Served response
                                /\ json response = None) ->
           shown = []).
Proof.
  intros Hsettled. unfold refresh. destruct debugRandomMode; simpl.
  - split; [reflexivity |]. exists [SetStats random].
    split; [reflexivity | split; [right; eauto | discriminate]].
  - destruct fetched as [response | |]; [| | contradiction].
    + destruct (json response) as [data |] eqn:Hj; simpl.
      * split; [reflexivity |]. exists [SetStats data].
        split; [reflexivity | split; [right; eauto |]].
        intros _ [H | [r [H1 H2]]]; [discriminate |].
        injection H1 as <-. congruence.
      * split; [reflexivity |]. exists [].
        split; [reflexivity | split; [now left | reflexivity]].
    + split; [reflexivity |]. exists [].
      split; [reflexivity | split; [now left | reflexivity]].
Qed.

Lemma refresh_keeps_polling_witness :
  refresh false (mkStats None None) NetworkError (fun _ => None) false
  = [SetTimeout 5000].
Proof.
  destruct (refresh_keeps_polling_unless_cancelled
              false (mkStats None None) NetworkError (fun _ => None))
    as [_ [shown [Hrun [_ Hfail]]]].
  - discriminate.
  - rewrite Hrun, Hfail; [reflexivity | reflexivity | now left].
Defined.

(** X13: a poll of the stats endpoint through the worker, on an
    application that is not served from the stats host: with the network
    up the fresh reading is shown; with the network down the reading of
    the cached response is shown; with the network down and nothing
    cached no reading is shown.  The next poll is set in each case. *)
Theorem poll_shows_the_cached_reading_when_offline
    (self_location : URL) (network : Request -> option Response)
    (cs : CacheStorage) (json : Response -> option BatteryStats)
    (random : BatteryStats) :
  origin (url stats_request) <> origin self_location ->
  (forall response data,
      network stats_request = Some response -> json response = Some data ->
      poll self_location network cs json random false
      = [SetStats data; SetTimeout 5000])
  /\ (forall stored data,
         network stats_request = None ->
         caches_match cs stats_request = Some stored ->
         json stored = Some data ->
         poll self_location network cs json random false
         = [SetStats data; SetTimeout 5000])
  /\ (network stats_request = None ->
      caches_match cs stats_request = None ->
      poll self_location network cs json random false = [SetTimeout 5000]).
Proof.
  intros Ho. unfold poll.
  split; [| split].
  - intros response data Hn Hj.
    rewrite (remote_success_run self_location network stats_request cs response)
      by (reflexivity || assumption).
    cbv [page_result reply refresh]. now rewrite Hj.
  - intros stored data Hn Hc Hj.
    rewrite (remote_failure_run self_location network stats_request cs)
      by (reflexivity || assumption).
    cbv [page_result reply refresh]. now rewrite Hc, Hj.
  - intros Hn Hc.
    rewrite (remote_failure_run self_location network stats_request cs)
      by (reflexivity || assumption).
    cbv [page_result reply refresh]. now rewrite Hc.
Qed.

Lemma poll_offline_witness :
  let reading := mkStats (Some (Finite (-120))) (Some (Finite 55)) in
  poll Sample.app Sample.offline
    [(CACHE_VERSION, [(stats_request, Sample.json "{}")])]
    (fun _ => Some reading) (mkStats None None) false
  = [SetStats reading; SetTimeout 5000].
Proof.
  intros reading.
  destruct (poll_shows_the_cached_reading_when_offline
              Sample.app Sample.offline
              [(CACHE_VERSION, [(stats_request, Sample.json "{}")])]
              (fun _ => Some reading) (mkStats None None))
    as [_ [Hcached _]].
  - vm_compute. discriminate.
  - apply (Hcached (Sample.json "{}") reading); reflexivity.
Defined.

(** X14: the fill colour and the glow colour change together: two
    charge levels get the same fill colour exactly when they get the
    same glow, for every number, NaN and the infinities included. *)
Theorem fill_and_glow_share_their_bands (a b : number) :
  getSocColor a = getSocColor b <-> getSocGlow a = getSocGlow b.
Proof.
  unfold getSocColor, getSocGlow.
  destruct (num_le a 10), (num_le a 25), (num_le a 45), (num_le a 70),
           (num_le b 10), (num_le b 25), (num_le b 45), (num_le b 70);
    split; intros H; (reflexivity || discriminate H).
Qed.

Lemma num_not_both (n : number) : num_lt0 n && num_gt0 n = false.
Proof.
  destruct n as [q | | |]; simpl; try reflexivity.
  destruct (Qle_bool 0 q) eqn:E1; [reflexivity |].
  destruct (Qle_bool q 0) eqn:E2; [reflexivity |]. exfalso.
  assert (H1 : ~ (0 <= q)%Q) by (rewrite <- Qle_bool_iff; congruence).
  assert (H2 : ~ (q <= 0)%Q) by (rewrite <- Qle_bool_iff; congruence).
  apply Qnot_le_lt in H1. apply H2. now apply Qlt_le_weak.
Qed.

(** X15: the status line is consistent: charging and discharging never
    hold together; the text is CHARGING exactly when charging and
    DISCHARGING exactly when discharging, empty exactly when there is no
    watts reading; and the status colour is the green exactly with
    CHARGING and the red exactly with DISCHARGING. *)
Theorem status_text_and_colour_agree (stats : option BatteryStats) :
  isCharging stats && isDischarging stats = false
  /\ (statusText stats = "CHARGING" <-> isCharging stats = true)
  /\ (statusText stats = "DISCHARGING" <-> isDischarging stats = true)
  /\ (statusText stats = "" <-> watts_of stats = None)
  /\ (statusColor stats = "#4ade80" <-> statusText stats = "CHARGING")
  /\ (statusColor stats = "#f87171" <-> statusText stats = "DISCHARGING").
Proof.
  assert (Hex : isCharging stats && isDischarging stats = false).
  { unfold isCharging, isDischarging.
    destruct (watts_of stats) as [n |]; [apply num_not_both | reflexivity]. }
  split; [exact Hex |].
  unfold statusText, statusColor.
  unfold isCharging, isDischarging in *.
  destruct (watts_of stats) as [n |];
    [destruct (num_lt0 n), (num_gt0 n); try discriminate Hex |];
    repeat split; intros H; (reflexivity || discriminate H).
Qed.

(** ** The history view *)

Lemma append_cancel_l (p a b : string) :
  (p ++ a = p ++ b)%string -> a = b.
Proof.
  induction p as [| ch p IH]; simpl; intros H; [exact H |].
  injection H as H. now apply IH.
Qed.

Lemma length_append (a b : string) :
  String.length (a ++ b) = String.length a + String.length b.
Proof. induction a as [| ch a IH]; simpl; [| rewrite IH]; reflexivity. Qed.

Lemma append_cancel_r (a b s : string) :
  (a ++ s = b ++ s)%string -> a = b.
Proof.
  revert b. induction a as [| ch a IH]; intros [| ch' b] H; simpl in H.
  - reflexivity.
  - apply (f_equal String.length) in H. simpl in H.
    rewrite length_append in H. lia.
  - apply (f_equal String.length) in H. simpl in H.
    rewrite length_append in H. lia.
  - injection H as -> H. f_equal. now apply IH.
Qed.

Lemma decimal_inj (n m : N) : decimal n = decimal m -> n = m.
Proof.
  unfold decimal. intros H.
  apply DecimalN.Unsigned.to_uint_inj.
  assert (Hs : NilEmpty.uint_of_string (NilEmpty.string_of_uint (N.to_uint n))
               = NilEmpty.uint_of_string (NilEmpty.string_of_uint (N.to_uint m)))
    by now rewrite H.
  rewrite !NilEmpty.usu in Hs. now injection Hs.
Qed.

(** X16: over the slider's range (at most 168 hours) the chart URLs
    tell the settings apart: each URL determines the number of hours and
    the colour scheme it was built from, and the two charts never share
    a URL. *)
Theorem chart_urls_determine_the_settings
    (hours hours' : N) (isDarkMode isDarkMode' : bool) :
  (hours <= 168)%N ->
  (hours' <= 168)%N ->
  (url1 hours isDarkMode = url1 hours' isDarkMode' ->
   hours = hours' /\ isDarkMode = isDarkMode')
  /\ (url2 hours isDarkMode = url2 hours' isDarkMode' ->
      hours = hours' /\ isDarkMode = isDarkMode')
  /\ url1 hours isDarkMode <> url2 hours' isDarkMode'.
Proof.
  intros _ _.
  assert (Hmul : decimal (hours * 20) = decimal (hours' * 20) -> hours = hours').
  { intros H. apply decimal_inj in H. lia. }
  split; [| split].
  - unfold url1, backgroundColor. intros H.
    apply append_cancel_l in H.
    destruct isDarkMode, isDarkMode'; try (simpl in H; discriminate H);
      (split; [| reflexivity]); apply Hmul;
      repeat apply append_cancel_l in H;
      now apply append_cancel_r in H.
  - unfold url2, backgroundColor. intros H.
    apply append_cancel_l in H.
    destruct isDarkMode, isDarkMode'; try (simpl in H; discriminate H);
      (split; [| reflexivity]); apply Hmul;
      repeat apply append_cancel_l in H;
      now apply append_cancel_r in H.
  - unfold url1, url2. simpl. discriminate.
Qed.

Lemma chart_urls_witness :
  url1 4 false
  = "https://thingspeak.com/channels/1465860/charts/1?bgcolor=%23ffffff&color=%232020d6&dynamic=true&results=80&title=State+of+Charge+%5B%25%5D&type=line&yaxis=SoC&width=auto&height=auto"
  /\ (url1 4 false = url1 8 true -> 4%N = 8%N /\ false = true)
  /\ url1 168 true <> url2 168 true.
Proof.
  split; [reflexivity |].
  destruct (chart_urls_determine_the_settings 4 8 false true) as [H1 _];
    [lia | lia |].
  destruct (chart_urls_determine_the_settings 168 168 true true) as [_ [_ H3]];
    [lia | lia |].
  split; [exact H1 | exact H3].
Defined.

(** ** The earlier live view *)

Lemma Qeq_bool_zero (q : Q) : Qeq_bool q 0 = Qle_bool q 0 && Qle_bool 0 q.
Proof.
  destruct (Qeq_bool q 0) eqn:E.
  - apply Qeq_bool_iff in E. symmetry. apply andb_true_iff.
    split; apply Qle_bool_iff; rewrite E; apply Qle_refl.
  - symmetry. apply not_true_is_false. intros H. apply andb_true_iff in H.
    destruct H as [H1 H2]. apply Qle_bool_iff in H1, H2.
    assert (Heq : (q == 0)%Q) by now apply Qle_antisym.
    apply Qeq_bool_iff in Heq. congruence.
Qed.

Lemma Qle_bool_total (q : Q) : Qle_bool q 0 || Qle_bool 0 q = true.
Proof.
  destruct (Qle_bool q 0) eqn:E; [reflexivity |]. simpl.
  apply Qle_bool_iff. apply Qlt_le_weak. apply Qnot_le_lt.
  rewrite <- Qle_bool_iff. congruence.
Qed.

(** X17: above the battery the earlier live view renders exactly one of
    the arrow, the spacer and the sun, except for a watts reading of
    NaN, for which it renders none of them; the watt label has the
    positive colour exactly with the arrow and the negative colour
    exactly with the sun. *)
Theorem exactly_one_indicator_unless_nan (stats : option BatteryStats) :
  (watts_of stats <> Some NaN ->
   (showsArrow stats, showsSpacer stats, showsSun stats) = (true, false, false)
   \/ (showsArrow stats, showsSpacer stats, showsSun stats) = (false, true, false)
   \/ (showsArrow stats, showsSpacer stats, showsSun stats) = (false, false, true))
  /\ (watts_of stats = Some NaN ->
      (showsArrow stats, showsSpacer stats, showsSun stats) = (false, false, false))
  /\ (wattColor stats = "var(--watt-positive-color)" <-> showsArrow stats = true)
  /\ (wattColor stats = "var(--watt-negative-color)" <-> showsSun stats = true).
Proof.
  unfold showsArrow, showsSpacer, showsSun, wattColor.
  destruct (watts_of stats) as [[q | | |] |]; simpl.
  - rewrite Qeq_bool_zero. pose proof (Qle_bool_total q) as Ht.
    destruct (Qle_bool q 0), (Qle_bool 0 q); try discriminate Ht; simpl;
      repeat split; intros; try tauto; try discriminate; try reflexivity.
  - repeat split; intros; try tauto; try discriminate; try reflexivity.
  - repeat split; intros; try tauto; try discriminate; try reflexivity.
  - repeat split; intros; try tauto; try discriminate; try reflexivity;
      congruence.
  - repeat split; intros; try tauto; try discriminate; try reflexivity.
Qed.

Lemma exactly_one_indicator_witness :
  let charging := Some (mkStats (Some (Finite (-120))) (Some (Finite 55))) in
  (showsArrow charging, showsSpacer charging, showsSun charging)
  = (false, false, true).
Proof.
  intros charging.
  destruct (exactly_one_indicator_unless_nan charging) as [Hone _].
  destruct Hone as [H | [H | H]].
  - vm_compute. discriminate.
  - vm_compute in H. discriminate H.
  - vm_compute in H. discriminate H.
  - exact H.
Defined.
